(** * Verification of [generate_pwa_config.py]

    A shallow embedding of the PWA scaffolding script
    [skills/nextjs-pwa/scripts/generate_pwa_config.py] and proofs of the
    properties its specification states.

    The script selects a few fixed text templates from its command-line
    flags, interpolates the project name into one of them, passes every
    template through [textwrap.dedent] and writes the results below an
    output directory.  The embedding follows the script function by
    function; the parts of the Python standard library the script calls
    ([textwrap.dedent], [os.path.join], [os.path.abspath],
    [os.path.dirname], the [argparse] checks configured in [main]) are
    modelled next to it, after their CPython definitions, in the POSIX
    flavour. *)

From Stdlib Require Import NArith ZArith Ascii String List Lia.
From stdpp Require Import base option list gmap.

(** ** Python strings

    A Python [str] is a sequence of Unicode code points: a character is
    its code point, a string the list of its characters.  Slicing, [+],
    [startswith] and [in] are then list operations. *)

Abbreviation char := N (only parsing).
Abbreviation str := (list N) (only parsing).

Definition char_newline : char := 10%N.
Definition char_space : char := 32%N.
Definition char_tab : char := 9%N.
Definition char_dquote : char := 34%N.
Definition char_slash : char := 47%N.
Definition char_tilde : char := 126%N.

(** String literals.  The templates of the script are full of double
    quotes; in the literals of this file the character [~], which occurs
    nowhere in the script's templates, stands for the double quote
    (code point 34).  Every other character stands for itself. *)
Definition lit_char (a : ascii) : char :=
  let n := N_of_ascii a in
  if (n =? char_tilde)%N then char_dquote else n.

Definition lit (s : string) : str := map lit_char (list_ascii_of_string s).
Arguments lit s%_string.

(** [s == t] *)
Fixpoint str_eqb (s t : str) : bool :=
  match s, t with
  | [], [] => true
  | c :: s', d :: t' => (c =? d)%N && str_eqb s' t'
  | _, _ => false
  end.

(** [s.startswith(p)] *)
Fixpoint str_startswith (s p : str) {struct p} : bool :=
  match p, s with
  | [], _ => true
  | d :: p', c :: s' => (c =? d)%N && str_startswith s' p'
  | _ :: _, [] => false
  end.

(** [s.endswith(c)] for a one-character [c] *)
Definition str_endswith_char (s : str) (c : char) : bool :=
  match last s with
  | Some d => (d =? c)%N
  | None => false
  end.

(** [needle in hay] *)
Fixpoint str_contains (needle hay : str) : bool :=
  str_startswith hay needle ||
  match hay with
  | [] => false
  | _ :: hay' => str_contains needle hay'
  end.

(** [s.split(c)] for a one-character separator: never the empty list. *)
Fixpoint str_split (c : char) (s : str) : list str :=
  match s with
  | [] => [[]]
  | d :: s' =>
      if (d =? c)%N then [] :: str_split c s'
      else match str_split c s' with
           | l :: ls => (d :: l) :: ls
           | [] => [[d]]
           end
  end.

(** [c.join(parts)] for a one-character [c] *)
Fixpoint str_join (c : char) (parts : list str) : str :=
  match parts with
  | [] => []
  | [p] => p
  | p :: ps => p ++ c :: str_join c ps
  end.

(** [s.rfind(c) + 1]: the length of the longest prefix of [s] that ends
    in [c], and 0 when [c] does not occur. *)
Fixpoint str_rfind_succ (c : char) (s : str) : nat :=
  match s with
  | [] => 0
  | d :: s' =>
      match str_rfind_succ c s' with
      | 0 => if (d =? c)%N then 1 else 0
      | S k => S (S k)
      end
  end.

(** [s.rstrip(c)] for a one-character [c] *)
Fixpoint str_rstrip (c : char) (s : str) : str :=
  match s with
  | [] => []
  | d :: s' =>
      match str_rstrip c s' with
      | [] => if (d =? c)%N then [] else [d]
      | r => d :: r
      end
  end.

(** ** The process and its world

    What a run of the script can observe and change: the current
    directory (read by [os.path.abspath]) and the files of the file
    system.  What it does is recorded as a list of events, in order.
    File-system calls are taken to succeed: the [OSError] of an
    unwritable output directory is outside the model, and so are the
    encoding and line-ending conventions [open(path, "w")] applies to
    the text it is given. *)

Inductive arg_error : Type :=
  | MissingRequired
  | InvalidChoice (given : str).

Inductive event : Type :=
  | Makedirs (dir : str)
  | WriteFile (path content : str)
  | PrintLine (text : str)
  | UsageError (e : arg_error).

Record World : Type := mkWorld {
  cwd : str;
  fs : gmap (list N) (list N);
}.

Inductive result (A : Type) : Type :=
  | Ok (a : A)
  | SystemExit (code : Z).
Arguments Ok {A} a.
Arguments SystemExit {A} code.

(** A computation of the script: it starts in a world and ends with a
    value or with [SystemExit], in a new world, having emitted events. *)
Definition M (A : Type) : Type := World -> result A * World * list event.

Definition ret {A} (a : A) : M A := fun w => (Ok a, w, []).

Definition bind {A B} (m : M A) (k : A -> M B) : M B := fun w =>
  match m w with
  | (Ok a, w1, t1) =>
      match k a w1 with
      | (r, w2, t2) => (r, w2, t1 ++ t2)
      end
  | (SystemExit c, w1, t1) => (SystemExit c, w1, t1)
  end.

Notation "'let*' x ':=' m 'in' k" := (bind m (fun x => k))
  (at level 10, x name, m at level 100, k at level 200, only parsing).
Notation "m '>>' k" := (bind m (fun _ => k))
  (at level 100, k at level 200, right associativity, only parsing).

Definition emit (e : event) : M unit := fun w => (Ok tt, w, [e]).

(** [print(text)] *)
Definition print (text : str) : M unit := emit (PrintLine text).

(** [parser.error(...)]: usage on stderr, then [sys.exit(2)]. *)
Definition parser_error {A} (e : arg_error) : M A :=
  fun w => (SystemExit 2, w, [UsageError e]).

(** [with open(path, "w") as f: f.write(content)]: the file at [path]
    is created or truncated and holds [content] afterwards. *)
Definition open_write (path content : str) : M unit :=
  fun w => (Ok tt, mkWorld (cwd w) (<[path := content]> (fs w)),
            [WriteFile path content]).

(** ** [os] and [os.path] (posixpath) *)

Module os.

(** [os.getcwd()] *)
Definition getcwd : M str := fun w => (Ok (cwd w), w, []).

(** [os.makedirs(dir, exist_ok=True)]: directories carry no content;
    the call is recorded. *)
Definition makedirs (dir : str) : M unit := emit (Makedirs dir).

Module path.

(** [os.path.join(a, *p)] *)
Definition join_step (path b : str) : str :=
  if str_startswith b [char_slash] then b
  else if match path with [] => true | _ => str_endswith_char path char_slash end
       then path ++ b
       else path ++ char_slash :: b.

Definition join (a : str) (p : list str) : str :=
  fold_left join_step p a.

(** [os.path.dirname(p)] *)
Definition dirname (p : str) : str :=
  let i := str_rfind_succ char_slash p in
  let head := take i p in
  if match head with [] => false | _ => negb (forallb (N.eqb char_slash) head) end
  then str_rstrip char_slash head
  else head.

(** [os.path.normpath(path)] *)
Definition normpath_step (initial_slashes : nat) (new_comps : list str)
    (comp : str) : list str :=
  if str_eqb comp [] || str_eqb comp (lit ".") then new_comps
  else if negb (str_eqb comp (lit ".."))
          || (Nat.eqb initial_slashes 0 && match new_comps with [] => true | _ => false end)
          || match last new_comps with
             | Some c => str_eqb c (lit "..")
             | None => false
             end
       then new_comps ++ [comp]
       else removelast new_comps.

Definition normpath (path : str) : str :=
  match path with
  | [] => lit "."
  | _ =>
      let initial_slashes :=
        if str_startswith path (lit "/") then
          if str_startswith path (lit "//") && negb (str_startswith path (lit "///"))
          then 2 else 1
        else 0 in
      let comps := str_split char_slash path in
      let new_comps := fold_left (normpath_step initial_slashes) comps [] in
      let path := str_join char_slash new_comps in
      let path := repeat char_slash initial_slashes ++ path in
      match path with
      | [] => lit "."
      | _ => path
      end
  end.

(** [os.path.abspath(path)] *)
Definition abspath (path : str) : M str :=
  let* path :=
    (if str_startswith path (lit "/") then ret path
     else let* d := getcwd in ret (join d [path])) in
  ret (normpath path).

End path.

End os.

(** ** [textwrap]

    CPython's definition (Lib/textwrap.py), on which the script relies:
<<
    _whitespace_only_re = re.compile(<a line of one or more spaces and tabs>, re.MULTILINE)
    _leading_whitespace_re = re.compile(<at a line start, a captured run of spaces and
                                         tabs, then a character that is none of space,
                                         tab, newline>, re.MULTILINE)

    def dedent(text):
        margin = None
        text = _whitespace_only_re.sub('', text)
        indents = _leading_whitespace_re.findall(text)
        for indent in indents:
            if margin is None:
                margin = indent
            elif indent.startswith(margin):
                pass
            elif margin.startswith(indent):
                margin = indent
            else:
                for i, (x, y) in enumerate(zip(margin, indent)):
                    if x != y:
                        margin = margin[:i]
                        break
        if margin:
            text = re.sub(r'(?m)^' + margin, '', text)
        return text
>>
    Both regular expressions are anchored at line starts in MULTILINE
    mode, so each works line by line on [text.split('\n')]: the first
    empties the lines made of spaces and tabs only, the second returns,
    for every line that has a character other than space and tab, its
    leading run of spaces and tabs.  The final substitution removes the
    margin from the start of every line that starts with it.

    This is the definition up to CPython 3.13.  The line-based rewrite
    of 3.14 agrees with it on every text that has no line made of
    white space other than spaces and tabs (3.14 takes such a line for
    blank as well); no template has such a line. *)

Module textwrap.

Definition is_blank_char (c : char) : bool :=
  (c =? char_space)%N || (c =? char_tab)%N.

(** [_whitespace_only_re.sub('', line)] *)
Definition whitespace_only_sub (line : str) : str :=
  if forallb is_blank_char line then [] else line.

(** The match of [_leading_whitespace_re] on one line, if any. *)
Fixpoint leading_whitespace (line : str) : option str :=
  match line with
  | [] => None
  | c :: line' =>
      if is_blank_char c then cons c <$> leading_whitespace line'
      else Some []
  end.

(** The index at which the [zip] loop of [dedent] breaks, if it does. *)
Fixpoint first_mismatch (margin indent : str) (i : nat) : option nat :=
  match margin, indent with
  | x :: margin', y :: indent' =>
      if (x =? y)%N then first_mismatch margin' indent' (S i) else Some i
  | _, _ => None
  end.

(** One iteration of the [for indent in indents] loop. *)
Definition margin_step (margin : option str) (indent : str) : option str :=
  match margin with
  | None => Some indent
  | Some m =>
      if str_startswith indent m then Some m
      else if str_startswith m indent then Some indent
      else match first_mismatch m indent 0 with
           | Some i => Some (take i m)
           | None => Some m
           end
  end.

Definition dedent_margin (lines : list str) : option str :=
  fold_left margin_step (omap leading_whitespace lines) None.

(** [re.sub(r'(?m)^' + margin, '', line)] *)
Definition remove_margin (margin line : str) : str :=
  if str_startswith line margin then drop (length margin) line else line.

(** [dedent] on the list of lines of the text. *)
Definition dedent_lines (lines : list str) : list str :=
  let lines := map whitespace_only_sub lines in
  match dedent_margin lines with
  | Some (c :: m) => map (remove_margin (c :: m)) lines
  | _ => lines
  end.

(** [textwrap.dedent(text)] *)
Definition dedent (text : str) : str :=
  str_join char_newline (dedent_lines (str_split char_newline text)).

End textwrap.

(** ** The templates

    Each [generate_*] function of the script builds its [content] by
    [textwrap.dedent] of a triple-quoted literal and hands it to
    [write_file].  The [content] expressions are named here; the
    literals are those of the script, f-string braces already resolved
    (a doubled brace of an f-string is one brace; the literals that are
    not f-strings keep theirs), and [~] for the double quote. *)

(** [content] of [generate_manifest]: an f-string with the two holes
    [{project_name}] and [{project_name[:12]}], interpolated before
    [dedent] runs. *)
Definition manifest_content (project_name : str) : str :=
  textwrap.dedent (
    lit "        import type { MetadataRoute } from ~next~;

        export default function manifest(): MetadataRoute.Manifest {
          return {
            name: ~" ++ project_name ++ lit "~,
            short_name: ~" ++ take 12 project_name ++ lit "~,
            description: ~A Progressive Web App built with Next.js~,
            start_url: ~/~,
            display: ~standalone~,
            background_color: ~#ffffff~,
            theme_color: ~#000000~,
            icons: [
              { src: ~/icons/icon-192.png~, sizes: ~192x192~, type: ~image/png~ },
              { src: ~/icons/icon-512.png~, sizes: ~512x512~, type: ~image/png~ },
              {
                src: ~/icons/icon-maskable-512.png~,
                sizes: ~512x512~,
                type: ~image/png~,
                purpose: ~maskable~,
              },
            ],
          };
        }
    ").

(** [content] of [generate_offline_page] *)
Definition offline_page_content : str :=
  textwrap.dedent (
    lit "        export default function OfflinePage() {
          return (
            <main style={{ textAlign: ~center~, padding: ~4rem 1rem~ }}>
              <h1>You are offline</h1>
              <p>Check your internet connection and try again.</p>
              <button onClick={() => window.location.reload()}>Retry</button>
            </main>
          );
        }
    ").

(** [push_handlers] of [generate_serwist_sw] when [push] holds: the
    literal opens with a line break, there is no backslash after the
    opening quotes. *)
Definition serwist_push_handlers : str :=
  textwrap.dedent (
    lit "

        // Handle push notifications
        self.addEventListener(~push~, (event) => {
          const data = event.data?.json() ?? {
            title: ~Notification~,
            body: ~You have a new notification~,
          };

          event.waitUntil(
            self.registration.showNotification(data.title, {
              body: data.body,
              icon: ~/icons/icon-192.png~,
              badge: ~/icons/icon-72.png~,
              tag: data.tag ?? ~default~,
              data: data.data,
            })
          );
        });

        // Handle notification clicks
        self.addEventListener(~notificationclick~, (event) => {
          event.notification.close();
          const targetUrl = event.notification.data?.url ?? ~/~;

          event.waitUntil(
            self.clients.matchAll({ type: ~window~ }).then((clients) => {
              for (const client of clients) {
                if (client.url === targetUrl && ~focus~ in client) {
                  return client.focus();
                }
              }
              return self.clients.openWindow(targetUrl);
            })
          );
        });
        ").

(** [content] of [generate_serwist_sw]: [push_handlers], already
    dedented or empty, is interpolated and the whole is dedented. *)
Definition serwist_sw_content (push : bool) : str :=
  let push_handlers := if push then serwist_push_handlers else [] in
  textwrap.dedent (
    lit "        import { defaultCache } from ~@serwist/next/worker~;
        import type { PrecacheEntry, SerwistGlobalConfig } from ~serwist~;
        import { Serwist } from ~serwist~;

        declare global {
          interface WorkerGlobalScope extends SerwistGlobalConfig {
            __SW_MANIFEST: (PrecacheEntry | string)[] | undefined;
          }
        }

        declare const self: ServiceWorkerGlobalScope;

        const serwist = new Serwist({
          precacheEntries: self.__SW_MANIFEST,
          skipWaiting: true,
          clientsClaim: true,
          navigationPreload: true,
          runtimeCaching: defaultCache,
          fallbacks: {
            entries: [
              {
                url: ~/offline~,
                matcher({ request }) {
                  return request.destination === ~document~;
                },
              },
            ],
          },
        });
        " ++ push_handlers ++ lit "
        serwist.addEventListeners();
    ").

(** [content] of [generate_serwist_config] *)
Definition serwist_config_content : str :=
  textwrap.dedent (
    lit "        import withSerwist from ~@serwist/next~;
        import type { NextConfig } from ~next~;

        const nextConfig: NextConfig = {
          // Your existing Next.js config here
        };

        export default withSerwist({
          swSrc: ~app/sw.ts~,
          swDest: ~public/sw.js~,
          disable: process.env.NODE_ENV === ~development~,
        })(nextConfig);
    ").

(** [push_handlers] of [generate_manual_sw] when [push] holds *)
Definition manual_push_handlers : str :=
  textwrap.dedent (
    lit "
        // ------- Push Notifications -------
        self.addEventListener(~push~, (event) => {
          const data = event.data ? event.data.json() : { title: ~Notification~ };

          event.waitUntil(
            self.registration.showNotification(data.title, {
              body: data.body || ~~,
              icon: ~/icons/icon-192.png~,
              badge: ~/icons/icon-72.png~,
              tag: data.tag || ~default~,
              data: data.data,
            })
          );
        });

        self.addEventListener(~notificationclick~, (event) => {
          event.notification.close();
          const targetUrl = event.notification.data?.url || ~/~;

          event.waitUntil(
            self.clients.matchAll({ type: ~window~ }).then((clients) => {
              for (const client of clients) {
                if (client.url === targetUrl && ~focus~ in client) {
                  return client.focus();
                }
              }
              return self.clients.openWindow(targetUrl);
            })
          );
        });
        ").

(** [content] of [generate_manual_sw] *)
Definition manual_sw_content (push : bool) : str :=
  let push_handlers := if push then manual_push_handlers else [] in
  textwrap.dedent (
    lit "        const CACHE_VERSION = ~v1~;
        const CACHE_NAME = `app-${CACHE_VERSION}`;

        const PRECACHE_URLS = [~/~, ~/offline~];

        self.addEventListener(~install~, (event) => {
          event.waitUntil(
            caches.open(CACHE_NAME).then((cache) => cache.addAll(PRECACHE_URLS))
          );
          self.skipWaiting();
        });

        self.addEventListener(~activate~, (event) => {
          event.waitUntil(
            caches.keys().then((keys) =>
              Promise.all(
                keys.filter((key) => key !== CACHE_NAME).map((key) => caches.delete(key))
              )
            )
          );
          self.clients.claim();
        });

        self.addEventListener(~fetch~, (event) => {
          const { request } = event;
          const url = new URL(request.url);

          if (request.method !== ~GET~) return;
          if (url.origin !== self.location.origin) return;

          if (request.mode === ~navigate~) {
            event.respondWith(
              fetch(request)
                .then((response) => {
                  const clone = response.clone();
                  caches.open(CACHE_NAME).then((cache) => cache.put(request, clone));
                  return response;
                })
                .catch(() => caches.match(~/offline~))
            );
            return;
          }

          event.respondWith(
            caches.match(request).then((cached) => cached || fetch(request))
          );
        });
        " ++ push_handlers ++ lit "
    ").

(** [content] of [generate_sw_registration] *)
Definition sw_registration_content : str :=
  textwrap.dedent (
    lit "        ~use client~;

        import { useEffect } from ~react~;

        export function ServiceWorkerRegistration() {
          useEffect(() => {
            if (~serviceWorker~ in navigator) {
              navigator.serviceWorker.register(~/sw.js~).catch((err) => {
                console.error(~SW registration failed:~, err);
              });
            }
          }, []);

          return null;
        }
    ").

(** [content] of [generate_online_hook] *)
Definition online_hook_content : str :=
  textwrap.dedent (
    lit "        ~use client~;

        import { useSyncExternalStore } from ~react~;

        function subscribe(callback: () => void) {
          window.addEventListener(~online~, callback);
          window.addEventListener(~offline~, callback);
          return () => {
            window.removeEventListener(~online~, callback);
            window.removeEventListener(~offline~, callback);
          };
        }

        export function useOnlineStatus() {
          return useSyncExternalStore(
            subscribe,
            () => navigator.onLine,
            () => true
          );
        }
    ").

(** ** The script *)

Definition write_file (path content : str) : M unit :=
  os.makedirs (os.path.dirname path) >>
  open_write path content >>
  print (lit "  Created " ++ path).

Definition generate_manifest (project_name base : str) : M unit :=
  write_file (os.path.join base [lit "app"; lit "manifest.ts"])
             (manifest_content project_name).

Definition generate_offline_page (base : str) : M unit :=
  write_file (os.path.join base [lit "app"; lit "offline"; lit "page.tsx"])
             offline_page_content.

Definition generate_serwist_sw (base : str) (push : bool) : M unit :=
  write_file (os.path.join base [lit "app"; lit "sw.ts"])
             (serwist_sw_content push).

Definition generate_serwist_config (base : str) : M unit :=
  write_file (os.path.join base [lit "next.config.ts"])
             serwist_config_content.

Definition generate_manual_sw (base : str) (push : bool) : M unit :=
  write_file (os.path.join base [lit "public"; lit "sw.js"])
             (manual_sw_content push).

Definition generate_sw_registration (base : str) : M unit :=
  write_file
    (os.path.join base
       [lit "app"; lit "components"; lit "ServiceWorkerRegistration.tsx"])
    sw_registration_content.

Definition generate_online_hook (base : str) : M unit :=
  write_file (os.path.join base [lit "hooks"; lit "useOnlineStatus.ts"])
             online_hook_content.

(** *** The command line

    [argparse] is configured in [main] with a required positional
    [project_name], a required option [--approach] with
    [choices=["serwist", "manual"]], two [store_true] flags and
    [--output] with default ["."].  A command line is taken here after
    [argparse] has matched option strings to their values: which
    arguments were given, and with what value.  [parse_args] then does
    the checks the configuration asks for; a value outside [choices] is
    rejected when the option is consumed, a missing required argument
    at the end. *)

Record CommandLine : Type := mkCommandLine {
  given_project_name : option str;
  given_approach : option str;
  given_push : bool;
  given_offline : bool;
  given_output : option str;
}.

(** [args], the namespace [parse_args] returns. *)
Record Namespace : Type := mkNamespace {
  project_name : str;
  approach : str;
  push : bool;
  offline : bool;
  output : str;
}.

Definition approach_choices : list str := [lit "serwist"; lit "manual"].

Definition parse_args (argv : CommandLine) : M Namespace :=
  let* a :=
    match given_approach argv with
    | Some v =>
        if existsb (str_eqb v) approach_choices then ret (Some v)
        else parser_error (InvalidChoice v)
    | None => ret None
    end in
  match given_project_name argv, a with
  | Some name, Some v =>
      ret (mkNamespace name v (given_push argv) (given_offline argv)
             (default (lit ".") (given_output argv)))
  | _, _ => parser_error MissingRequired
  end.

Definition main (argv : CommandLine) : M unit :=
  let* args := parse_args argv in
  let* base := os.path.abspath (output args) in
  print (char_newline :: lit "Generating PWA config for '" ++ project_name args
           ++ lit "' (" ++ approach args ++ lit " approach)") >>
  print (lit "Output directory: " ++ base ++ [char_newline]) >>
  (* Always generate manifest *)
  generate_manifest (project_name args) base >>
  (* Approach-specific files *)
  (if str_eqb (approach args) (lit "serwist") then
     generate_serwist_sw base (push args) >>
     generate_serwist_config base >>
     print (char_newline :: lit "  Install dependencies:") >>
     print (lit "    npm install @serwist/next && npm install -D serwist")
   else
     generate_manual_sw base (push args) >>
     generate_sw_registration base) >>
  (* Optional features *)
  (if offline args then
     generate_offline_page base >>
     generate_online_hook base
   else ret tt) >>
  (if push args then
     print (char_newline :: lit "  Generate VAPID keys:") >>
     print (lit "    npx web-push generate-vapid-keys") >>
     print (char_newline :: lit "  Add to .env:") >>
     print (lit "    NEXT_PUBLIC_VAPID_PUBLIC_KEY=...") >>
     print (lit "    VAPID_PRIVATE_KEY=...") >>
     print (lit "    VAPID_SUBJECT=mailto:your@email.com") >>
     (if str_eqb (approach args) (lit "serwist") then
        print (char_newline :: lit "  Install web-push for server-side:") >>
        print (lit "    npm install web-push")
      else ret tt)
   else ret tt) >>
  print (char_newline :: lit "Done! Files generated successfully.").

(** The process: [main()] under [if __name__ == "__main__"].  Its exit
    status is 0 when [main] returns and the code of [SystemExit]
    otherwise. *)
Definition exit_status {A} (r : result A * World * list event) : Z :=
  match r with
  | (Ok _, _, _) => 0
  | (SystemExit c, _, _) => c
  end.

Definition final_world {A} (r : result A * World * list event) : World :=
  r.1.2.

Definition events_of {A} (r : result A * World * list event) : list event :=
  r.2.

(** The files a run wrote: the [(path, content)] of its [open] calls,
    in order. *)
Definition written_of_event (e : event) : option (str * str) :=
  match e with
  | WriteFile p c => Some (p, c)
  | _ => None
  end.

Definition files_written {A} (r : result A * World * list event)
    : list (str * str) :=
  omap written_of_event (events_of r).

(** ** Generation requests

    The specification's view of an invocation: a request fixes the
    project name, one of the two approaches, the two flags and the
    output directory.  [command_line] is the command line that carries
    a request, [generate] the run of the script on it. *)

Inductive Approach : Type := Serwist | Manual.

Definition approach_name (a : Approach) : str :=
  match a with
  | Serwist => lit "serwist"
  | Manual => lit "manual"
  end.

Record GenerationRequest : Type := mkRequest {
  req_project_name : str;
  req_approach : Approach;
  req_push : bool;
  req_offline : bool;
  req_output_dir : str;
}.

Definition command_line (r : GenerationRequest) : CommandLine :=
  mkCommandLine (Some (req_project_name r))
                (Some (approach_name (req_approach r)))
                (req_push r) (req_offline r)
                (Some (req_output_dir r)).

Definition generate (r : GenerationRequest) : M unit :=
  main (command_line r).

(** The value of [base] in [main]: [os.path.abspath(args.output)],
    evaluated in the world the run starts in. *)
Definition output_base (r : GenerationRequest) (w : World) : str :=
  match os.path.abspath (req_output_dir r) w with
  | (Ok b, _, _) => b
  | (SystemExit _, _, _) => []
  end.

(** The path of the worker script of an approach, as [main] builds it. *)
Definition worker_script_path (a : Approach) (base : str) : str :=
  match a with
  | Serwist => os.path.join base [lit "app"; lit "sw.ts"]
  | Manual => os.path.join base [lit "public"; lit "sw.js"]
  end.

(** The [content] of the worker script of an approach. *)
Definition worker_script_content (a : Approach) (push : bool) : str :=
  match a with
  | Serwist => serwist_sw_content push
  | Manual => manual_sw_content push
  end.

(** The dedented handler text an approach splices into its worker
    script: the [push] handler block followed by the
    [notificationclick] handler block. *)
Definition push_handlers_text (a : Approach) : str :=
  match a with
  | Serwist => serwist_push_handlers
  | Manual => manual_push_handlers
  end.

(** The first line of each handler block. *)
Definition push_listener : str :=
  lit "self.addEventListener(~push~, (event) => {".
Definition notificationclick_listener : str :=
  lit "self.addEventListener(~notificationclick~, (event) => {".

(** A file name placed below [base]: [os.path.join(base, *components)]
    where the components are the segments of a relative path. *)
Definition relative_components : Type := list str.

(** The templates a request selects, each with the components of its
    path below the output directory: the table of generated files of
    the specification, read off [main] and the [generate_*] functions. *)
Definition template_outputs (r : GenerationRequest)
    : list (relative_components * str) :=
  [([lit "app"; lit "manifest.ts"], manifest_content (req_project_name r))]
  ++ match req_approach r with
     | Serwist =>
         [([lit "app"; lit "sw.ts"], serwist_sw_content (req_push r));
          ([lit "next.config.ts"], serwist_config_content)]
     | Manual =>
         [([lit "public"; lit "sw.js"], manual_sw_content (req_push r));
          ([lit "app"; lit "components"; lit "ServiceWorkerRegistration.tsx"],
           sw_registration_content)]
     end
  ++ (if req_offline r then
        [([lit "app"; lit "offline"; lit "page.tsx"], offline_page_content);
         ([lit "hooks"; lit "useOnlineStatus.ts"], online_hook_content)]
      else []).

Definition place (base : str) (o : relative_components * str) : str * str :=
  (os.path.join base o.1, o.2).

(** Writing a list of files into a file map, in order. *)
Definition store_files (files : list (str * str))
    (m : gmap (list N) (list N)) : gmap (list N) (list N) :=
  fold_left (fun m f => <[f.1 := f.2]> m) files m.

(** A component of a relative path: not empty, no slash at either end. *)
Definition plain_component (c : str) : bool :=
  match c with
  | [] => false
  | d :: _ => negb (d =? char_slash)%N && negb (str_endswith_char c char_slash)
  end.

(** The text [os.path.join] puts between [base] and the first component. *)
Definition base_separator (base : str) : str :=
  match base with
  | [] => []
  | _ => if str_endswith_char base char_slash then [] else [char_slash]
  end.

(** The relative path of each selected template, segments joined. *)
Definition relative_paths (r : GenerationRequest) : list str :=
  map (fun o => str_join char_slash o.1) (template_outputs r).

(** A name is single-line when it has no line break. *)
Definition single_line (s : str) : Prop := char_newline ∉ s.

(** The manifest the template describes: its text without the
    eight-space margin of the source, the project name in its two
    places.  [manifest_content] is compared with it below. *)
Definition manifest_text (project_name : str) : str :=
  lit "import type { MetadataRoute } from ~next~;

export default function manifest(): MetadataRoute.Manifest {
  return {
    name: ~" ++ project_name ++ lit "~,
    short_name: ~" ++ take 12 project_name ++ lit "~,
    description: ~A Progressive Web App built with Next.js~,
    start_url: ~/~,
    display: ~standalone~,
    background_color: ~#ffffff~,
    theme_color: ~#000000~,
    icons: [
      { src: ~/icons/icon-192.png~, sizes: ~192x192~, type: ~image/png~ },
      { src: ~/icons/icon-512.png~, sizes: ~512x512~, type: ~image/png~ },
      {
        src: ~/icons/icon-maskable-512.png~,
        sizes: ~512x512~,
        type: ~image/png~,
        purpose: ~maskable~,
      },
    ],
  };
}
".

(** Text can be appended to a line without changing what [dedent] does
    with it when the line already has a character other than space and
    tab (or nothing is appended). *)
Definition appendable (l x : str) : Prop :=
  x = [] ∨ textwrap.leading_whitespace l ≠ None.

(** ** What a run reports

    Views of the event list used to state what the script prints and
    in which order it works. *)

(** The discipline of [write_file]: a file is written right after
    [os.makedirs] on its directory, and right before its path is
    reported; other events are lines printed and usage errors. *)
Inductive write_protocol : list event → Prop :=
  | write_protocol_nil : write_protocol []
  | write_protocol_print (text : str) (t : list event) :
      write_protocol t → write_protocol (PrintLine text :: t)
  | write_protocol_usage (e : arg_error) (t : list event) :
      write_protocol t → write_protocol (UsageError e :: t)
  | write_protocol_write (path content : str) (t : list event) :
      write_protocol t →
      write_protocol (Makedirs (os.path.dirname path)
                      :: WriteFile path content
                      :: PrintLine (lit "  Created " ++ path) :: t).


(** The directory an [os.makedirs] event creates. *)
Definition made_directory (e : event) : option str :=
  match e with
  | Makedirs dir => Some dir
  | _ => None
  end.

(** The events of writing one selected template below [base]. *)
Definition write_events (base : str) (o : relative_components * str)
    : list event :=
  let path := os.path.join base o.1 in
  [Makedirs (os.path.dirname path); WriteFile path o.2;
   PrintLine (lit "  Created " ++ path)].

(** The result of [os.path.abspath]: not empty, and without a slash at
    its end unless it is made of slashes only. *)
Definition normal_path (p : str) : Prop :=
  p ≠ [] ∧ (forallb (N.eqb char_slash) p = true
            ∨ str_endswith_char p char_slash = false).

(** The line [main] prints last. *)
Definition done_line : str :=
  char_newline :: lit "Done! Files generated successfully.".

(** [initial_slashes] of [os.path.normpath]: POSIX keeps two leading
    slashes and takes three or more for one. *)
Definition initial_slashes (p : str) : nat :=
  if str_startswith p (lit "/") then
    if str_startswith p (lit "//") && negb (str_startswith p (lit "///"))
    then 2 else 1
  else 0.

(** * The library models on known inputs

    The behaviour of CPython on a few inputs, reproduced by the models
    above. *)

Example dedent_common_margin :
  textwrap.dedent (lit "    hello
      world
    ") = lit "hello
  world
".
Proof. vm_compute. reflexivity. Qed.

Example dedent_tab_is_not_spaces :
  textwrap.dedent (lit "  hello" ++ char_newline :: char_tab :: lit "hello")
  = lit "  hello" ++ char_newline :: char_tab :: lit "hello".
Proof. vm_compute. reflexivity. Qed.

Example dedent_blank_line_emptied :
  textwrap.dedent (lit "  a
   
  b") = lit "a

b".
Proof. vm_compute. reflexivity. Qed.

Example join_components :
  os.path.join (lit "/srv/www") [lit "app"; lit "sw.ts"] = lit "/srv/www/app/sw.ts"
  ∧ os.path.join (lit "/") [lit "app"] = lit "/app"
  ∧ os.path.join (lit "/a/") [lit "b"] = lit "/a/b"
  ∧ os.path.join (lit "/a") [lit "/b"] = lit "/b"
  ∧ os.path.join [] [lit "a"] = lit "a".
Proof. vm_compute. auto. Qed.

Example normpath_known :
  os.path.normpath (lit "/home/dev/shop/../out/./pwa/") = lit "/home/dev/out/pwa"
  ∧ os.path.normpath (lit "//srv") = lit "//srv"
  ∧ os.path.normpath (lit "///srv") = lit "/srv"
  ∧ os.path.normpath [] = lit "."
  ∧ os.path.normpath (lit "a/../..") = lit "..".
Proof. vm_compute. auto. Qed.

Example dirname_known :
  os.path.dirname (lit "/srv/app/sw.ts") = lit "/srv/app"
  ∧ os.path.dirname (lit "/sw.ts") = lit "/"
  ∧ os.path.dirname (lit "sw.ts") = [].
Proof. vm_compute. auto. Qed.

Example abspath_known :
  let w := mkWorld (lit "/home/dev/shop") ∅ in
  (os.path.abspath (lit "../out") w).1.1 = Ok (lit "/home/dev/out")
  ∧ (os.path.abspath (lit ".") w).1.1 = Ok (lit "/home/dev/shop")
  ∧ (os.path.abspath (lit "/srv/pwa/") w).1.1 = Ok (lit "/srv/pwa").
Proof. vm_compute. auto. Qed.

(** What a run prints and does for the smallest request, in order. *)
Example shop_run_events :
  events_of
    (main (mkCommandLine (Some (lit "shop")) (Some (lit "manual")) false false None)
          (mkWorld (lit "/home/dev/shop") ∅))
  = [PrintLine (char_newline :: lit "Generating PWA config for 'shop' (manual approach)");
     PrintLine (lit "Output directory: /home/dev/shop" ++ [char_newline]);
     Makedirs (lit "/home/dev/shop/app");
     WriteFile (lit "/home/dev/shop/app/manifest.ts") (manifest_content (lit "shop"));
     PrintLine (lit "  Created /home/dev/shop/app/manifest.ts");
     Makedirs (lit "/home/dev/shop/public");
     WriteFile (lit "/home/dev/shop/public/sw.js") (manual_sw_content false);
     PrintLine (lit "  Created /home/dev/shop/public/sw.js");
     Makedirs (lit "/home/dev/shop/app/components");
     WriteFile (lit "/home/dev/shop/app/components/ServiceWorkerRegistration.tsx")
       sw_registration_content;
     PrintLine (lit "  Created /home/dev/shop/app/components/ServiceWorkerRegistration.tsx");
     PrintLine (char_newline :: lit "Done! Files generated successfully.")].
Proof. vm_compute. reflexivity. Qed.

(** The worker script of the serwist approach starts at the left edge
    without [push]; with [push] the interpolated handlers, already
    dedented, leave [dedent] no margin to remove and the script keeps
    the eight spaces of the source. *)
Example serwist_sw_margin :
  str_startswith (serwist_sw_content false) (lit "import {") = true
  ∧ str_startswith (serwist_sw_content true) (lit "        import {") = true.
Proof. vm_compute. auto. Qed.

(** * Proofs *)

(** Replace a closed term by its value. *)
Ltac vm_eval t :=
  let v := eval vm_compute in t in
  let H := fresh "Hvm" in
  assert (t = v) as H by (vm_cast_no_check (eq_refl v));
  rewrite H; clear H.

(** Refute the membership [H] of a text in a list of literals that
    all differ from it within their first 12 characters. *)
Ltac not_in_concrete H :=
  repeat (apply elem_of_cons in H as [H|H];
          [apply (f_equal (take 12)) in H; vm_compute in H; discriminate H|]);
  by apply elem_of_nil in H.

(** ** Strings *)

Lemma str_eqb_eq (s t : str) : str_eqb s t = true ↔ s = t.
Proof.
  revert t; induction s as [|c s IH]; intros [|d t]; simpl; try easy.
  rewrite andb_true_iff, N.eqb_eq, IH. split.
  - intros [-> ->]; reflexivity.
  - intros [= -> ->]; auto.
Qed.

Lemma str_startswith_prefix (s p : str) :
  str_startswith s p = true ↔ ∃ r, s = p ++ r.
Proof.
  revert s; induction p as [|d p IH]; intros s; simpl.
  - split; [intros _; by exists s | done].
  - destruct s as [|c s]; [split; [done | intros [r [=]]]|].
    rewrite andb_true_iff, N.eqb_eq, IH. split.
    + intros [-> [r ->]]. by exists r.
    + intros [r [= -> ->]]. eauto.
Qed.

Lemma str_startswith_app_l (a x p : str) :
  str_startswith a p = true → str_startswith (a ++ x) p = true.
Proof.
  rewrite !str_startswith_prefix. intros [r ->].
  exists (r ++ x). by rewrite app_assoc.
Qed.

Lemma str_endswith_char_app (a b : str) (c : char) :
  b ≠ [] → str_endswith_char (a ++ b) c = str_endswith_char b c.
Proof.
  intros Hb. unfold str_endswith_char.
  rewrite last_app. destruct (last b) eqn:E; [reflexivity|].
  apply last_None in E. contradiction.
Qed.

(** ** [os.path.join] below a base directory *)

Lemma plain_component_spec (c : str) :
  plain_component c = true →
  c ≠ [] ∧ str_startswith c [char_slash] = false
  ∧ str_endswith_char c char_slash = false.
Proof.
  destruct c as [|d c]; simpl; [done|].
  rewrite andb_true_iff, !negb_true_iff. intros [Hd He].
  repeat split; [done| |done].
  by rewrite Hd.
Qed.

Lemma os_path_join_step_first (base c : str) :
  str_startswith c [char_slash] = false →
  os.path.join_step base c = base ++ base_separator base ++ c.
Proof.
  intros Hs. unfold os.path.join_step, base_separator. rewrite Hs.
  destruct base as [|b base]; [reflexivity|].
  destruct (str_endswith_char (b :: base) char_slash); reflexivity.
Qed.

Lemma os_path_join_step_next (path c : str) :
  path ≠ [] → str_endswith_char path char_slash = false →
  str_startswith c [char_slash] = false →
  os.path.join_step path c = path ++ char_slash :: c.
Proof.
  intros Hp He Hs.
  unfold os.path.join_step. rewrite Hs, He.
  destruct path; [contradiction | reflexivity].
Qed.

Lemma os_path_join_next (path : str) (comps : list str) :
  path ≠ [] → str_endswith_char path char_slash = false →
  forallb plain_component comps = true →
  os.path.join path comps
  = path ++ concat (map (cons char_slash) comps).
Proof.
  revert path. induction comps as [|c comps IH]; intros path Hp He Hc.
  - simpl. by rewrite app_nil_r.
  - simpl in Hc. apply andb_true_iff in Hc as [Hc Hcs].
    unfold os.path.join in *. simpl.
    destruct (plain_component_spec c Hc) as (Hne & Hsc & Hec).
    rewrite os_path_join_step_next by done.
    rewrite IH; [by rewrite <- app_assoc | | | done].
    + by destruct path.
    + rewrite (str_endswith_char_app path (char_slash :: c)) by done.
      rewrite <- Hec. apply (str_endswith_char_app [char_slash] c). done.
Qed.

Lemma str_join_cons (c : char) (p : str) (ps : list str) :
  str_join c (p :: ps) = p ++ concat (map (cons c) ps).
Proof.
  revert p. induction ps as [|q ps IH]; intros p; simpl.
  - by rewrite app_nil_r.
  - f_equal. f_equal. apply IH.
Qed.

(** Below [base], [os.path.join] appends the relative path, after a
    slash unless [base] is empty or ends in one. *)
Lemma os_path_join_plain (base : str) (comps : list str) :
  comps ≠ [] → forallb plain_component comps = true →
  os.path.join base comps
  = base ++ base_separator base ++ str_join char_slash comps.
Proof.
  destruct comps as [|c comps]; [done|]. intros _ Hc.
  simpl in Hc. apply andb_true_iff in Hc as [Hc Hcs].
  change (os.path.join base (c :: comps))
    with (os.path.join (os.path.join_step base c) comps).
  destruct (plain_component_spec c Hc) as (Hne & Hsc & Hec).
  rewrite os_path_join_step_first by done.
  rewrite os_path_join_next; [| | |done].
  - rewrite str_join_cons. by rewrite <- !app_assoc.
  - destruct base; [by destruct c | done].
  - rewrite app_assoc, str_endswith_char_app by done. exact Hec.
Qed.

(** ** Running the script *)

Lemma bind_ok {A B} (m : M A) (k : A → M B) w a w1 t1 :
  m w = (Ok a, w1, t1) →
  bind m k w = (let '(r, w2, t2) := k a w1 in (r, w2, t1 ++ t2)).
Proof. intros H. unfold bind. by rewrite H. Qed.

Lemma approach_name_serwist (a : Approach) :
  str_eqb (approach_name a) (lit "serwist")
  = match a with Serwist => true | Manual => false end.
Proof. by destruct a. Qed.

Lemma parse_args_request (r : GenerationRequest) (w : World) :
  parse_args (command_line r) w
  = (Ok (mkNamespace (req_project_name r) (approach_name (req_approach r))
           (req_push r) (req_offline r) (req_output_dir r)), w, []).
Proof. destruct r as [n [] p o d]; reflexivity. Qed.

Lemma os_path_abspath_run (path : str) (w : World) :
  ∃ b, os.path.abspath path w = (Ok b, w, []).
Proof.
  unfold os.path.abspath, bind, ret, os.getcwd.
  destruct (str_startswith path (lit "/")); eauto.
Qed.

Lemma output_base_run (r : GenerationRequest) (w : World) :
  os.path.abspath (req_output_dir r) w = (Ok (output_base r w), w, []).
Proof.
  unfold output_base.
  destruct (os_path_abspath_run (req_output_dir r) w) as [b ->]. reflexivity.
Qed.

(** What a run on a request does, in one statement: it returns
    normally, leaves the current directory alone, writes the selected
    templates below [base] in the order of [template_outputs], and the
    file map ends up with exactly those writes applied. *)
Lemma generate_run (r : GenerationRequest) (w : World) :
  ∃ t,
    generate r w
    = (Ok tt,
       mkWorld (cwd w)
         (store_files (map (place (output_base r w)) (template_outputs r)) (fs w)),
       t)
    ∧ omap written_of_event t
      = map (place (output_base r w)) (template_outputs r).
Proof.
  unfold generate, main.
  rewrite (bind_ok _ _ _ _ _ _ (parse_args_request r w)).
  rewrite (bind_ok _ _ _ _ _ _ (output_base_run r w)).
  generalize (output_base r w) as base. intros base.
  destruct r as [name a p o out]; cbn [project_name approach push offline output].
  rewrite !approach_name_serwist.
  unfold template_outputs, store_files, place.
  cbn [req_project_name req_approach req_push req_offline].
  destruct a, p, o;
    cbv [bind generate_manifest generate_serwist_sw generate_serwist_config
         generate_manual_sw generate_sw_registration generate_offline_page
         generate_online_hook write_file os.makedirs open_write print emit ret
         cwd fs];
    cbn [fold_left map app fst snd];
    (eexists; split;
     [reflexivity | cbn [omap list_omap written_of_event app]; reflexivity]).
Qed.

(** ** The selected templates *)

Lemma template_outputs_plain (r : GenerationRequest) :
  Forall (fun o : relative_components * str =>
            o.1 ≠ [] ∧ forallb plain_component o.1 = true)
         (template_outputs r).
Proof.
  destruct r as [name a p o out]. unfold template_outputs.
  cbn [req_project_name req_approach req_push req_offline].
  destruct a, o; cbn [app];
    repeat (apply Forall_cons; split;
            [cbn [fst]; split; [discriminate | reflexivity]|]);
    constructor.
Qed.

Lemma relative_paths_eq (r : GenerationRequest) :
  relative_paths r
  = [lit "app/manifest.ts"]
    ++ match req_approach r with
       | Serwist => [lit "app/sw.ts"; lit "next.config.ts"]
       | Manual => [lit "public/sw.js";
                    lit "app/components/ServiceWorkerRegistration.tsx"]
       end
    ++ (if req_offline r
        then [lit "app/offline/page.tsx"; lit "hooks/useOnlineStatus.ts"]
        else []).
Proof. destruct r as [name [] p [] out]; reflexivity. Qed.

Lemma relative_paths_NoDup (r : GenerationRequest) : NoDup (relative_paths r).
Proof.
  rewrite relative_paths_eq.
  destruct (req_approach r), (req_offline r);
    apply (bool_decide_unpack _); vm_compute; reflexivity.
Qed.

Lemma placed_paths (r : GenerationRequest) (base : str) :
  (map (place base) (template_outputs r)).*1
  = map (app (base ++ base_separator base)) (relative_paths r).
Proof.
  unfold relative_paths. rewrite <- !list_fmap_compose.
  apply Forall_fmap_ext. eapply Forall_impl; [apply template_outputs_plain|].
  intros [comps c] [Hne Hp]; simpl in *.
  rewrite os_path_join_plain by done. by rewrite app_assoc.
Qed.

(** ** File maps *)

Lemma store_files_union (files : list (str * str)) (m : gmap (list N) (list N)) :
  store_files files m = store_files files ∅ ∪ m.
Proof.
  revert m. induction files as [|[p c] files IH]; intros m; simpl.
  - by rewrite (left_id_L ∅ (∪)).
  - unfold store_files in *; simpl.
    rewrite (IH (<[p:=c]> m)), (IH (<[p:=c]> ∅)).
    rewrite insert_empty, <- (assoc_L (∪)).
    by rewrite <- insert_union_singleton_l.
Qed.

Lemma store_files_idemp (files : list (str * str)) (m : gmap (list N) (list N)) :
  store_files files (store_files files m) = store_files files m.
Proof.
  rewrite (store_files_union files (store_files files m)).
  rewrite (store_files_union files m).
  by rewrite (assoc_L (∪)), (idemp_L (∪)).
Qed.

Lemma store_files_cons (f : str * str) (files : list (str * str))
    (m : gmap (list N) (list N)) :
  store_files (f :: files) m = store_files files (<[f.1 := f.2]> m).
Proof. reflexivity. Qed.

Lemma store_files_lookup_inv (files : list (str * str))
    (m : gmap (list N) (list N)) (q e : str) :
  store_files files m !! q = Some e → q ∈ files.*1 ∨ m !! q = Some e.
Proof.
  revert m. induction files as [|[q' d'] files IH]; intros m H; [by right|].
  rewrite store_files_cons in H. apply IH in H as [H|H].
  - left. simpl. by right.
  - simpl in H. destruct (decide (q' = q)) as [->|Hne].
    + left. simpl. by left.
    + rewrite lookup_insert_ne in H by done. by right.
Qed.

(** A path written once holds what was written to it. *)
Lemma store_files_lookup (files : list (str * str))
    (m : gmap (list N) (list N)) (p c : str) :
  NoDup files.*1 → (p, c) ∈ files → store_files files m !! p = Some c.
Proof.
  revert m. induction files as [|[q d] files IH]; intros m Hnd Hin.
  - by apply elem_of_nil in Hin.
  - simpl in Hnd. apply NoDup_cons in Hnd as [Hq Hnd].
    rewrite store_files_cons.
    apply elem_of_cons in Hin as [[= -> ->]|Hin]; [|by apply IH].
    simpl. rewrite store_files_union.
    destruct (store_files files ∅ !! q) as [e|] eqn:E.
    + apply store_files_lookup_inv in E as [E|E]; [done|].
      by rewrite lookup_empty in E.
    + rewrite lookup_union_r by done. apply lookup_insert_eq.
Qed.

Lemma output_base_cwd (r : GenerationRequest) (w1 w2 : World) :
  cwd w1 = cwd w2 → output_base r w1 = output_base r w2.
Proof.
  intros H. unfold output_base, os.path.abspath, bind, ret, os.getcwd.
  destruct (str_startswith _ _); simpl; by rewrite ?H.
Qed.

(** ** A run on a request

    A request [r] and the world [w] the run starts in are fixed. *)

Section Run.

Context (r : GenerationRequest) (w : World).

Lemma generate_files_written :
  files_written (generate r w)
  = map (place (output_base r w)) (template_outputs r).
Proof.
  destruct (generate_run r w) as (t & -> & Ht). exact Ht.
Qed.

Lemma generate_exit_status :
  exit_status (generate r w) = 0%Z.
Proof. destruct (generate_run r w) as (t & -> & _). reflexivity. Qed.

Lemma generate_final_world :
  final_world (generate r w)
  = mkWorld (cwd w)
      (store_files (map (place (output_base r w)) (template_outputs r)) (fs w)).
Proof. destruct (generate_run r w) as (t & -> & _). reflexivity. Qed.

Lemma written_paths :
  (files_written (generate r w)).*1
  = map (app (output_base r w ++ base_separator (output_base r w)))
        (relative_paths r).
Proof. rewrite generate_files_written. apply placed_paths. Qed.

Lemma written_paths_NoDup :
  NoDup (files_written (generate r w)).*1.
Proof.
  rewrite written_paths. apply NoDup_fmap_2; [|apply relative_paths_NoDup].
  intros x y H. by apply app_inv_head in H.
Qed.

Lemma generate_stores (comps : list str) (c : str) :
  (comps, c) ∈ template_outputs r →
  fs (final_world (generate r w)) !! os.path.join (output_base r w) comps = Some c.
Proof.
  intros Hin. rewrite generate_final_world. cbn [fs].
  apply store_files_lookup.
  - rewrite <- generate_files_written. apply written_paths_NoDup.
  - apply (list_elem_of_fmap_2 (place (output_base r w)) _ _ Hin).
Qed.

Lemma worker_script_stored :
  fs (final_world (generate r w))
    !! worker_script_path (req_approach r) (output_base r w)
  = Some (worker_script_content (req_approach r) (req_push r)).
Proof.
  unfold worker_script_path, worker_script_content.
  destruct (req_approach r) eqn:Ea;
    apply generate_stores; unfold template_outputs; rewrite Ea; cbn [app];
    apply elem_of_cons; right; apply elem_of_cons; left; reflexivity.
Qed.

Lemma manifest_stored :
  fs (final_world (generate r w))
    !! os.path.join (output_base r w) [lit "app"; lit "manifest.ts"]
  = Some (manifest_content (req_project_name r)).
Proof.
  apply generate_stores. unfold template_outputs. cbn [app].
  apply elem_of_cons; left; reflexivity.
Qed.

(** A path below [base] that starts another way than every selected
    template is not written. *)
Lemma not_written (rel : str) :
  rel ∉ relative_paths r →
  output_base r w ++ base_separator (output_base r w) ++ rel
    ∉ (files_written (generate r w)).*1.
Proof.
  intros Hn. rewrite written_paths. intros (s & Heq & Hin)%list_elem_of_fmap.
  rewrite app_assoc in Heq. apply app_inv_head in Heq. by subst.
Qed.

End Run.

(** ** [textwrap.dedent] *)

Section Dedent.

Import textwrap.

Lemma str_split_nonempty (c : char) (s : str) : str_split c s ≠ [].
Proof.
  destruct s as [|d s]; simpl; [done|].
  destruct (d =? c)%N; [done|]. by destruct (str_split c s).
Qed.

Lemma str_split_cons (c d : char) (s : str) :
  d ≠ c →
  str_split c (d :: s)
  = (d :: hd [] (str_split c s)) :: tl (str_split c s).
Proof.
  intros Hd. simpl. apply N.eqb_neq in Hd as ->.
  pose proof (str_split_nonempty c s). by destruct (str_split c s).
Qed.

(** Splitting a text written as a prefix and a rest: the last segment
    of the prefix and the first segment of the rest are one line. *)
Lemma str_split_app (c : char) (a s : str) :
  str_split c (a ++ s)
  = removelast (str_split c a)
    ++ (List.last (str_split c a) [] ++ hd [] (str_split c s))
       :: tl (str_split c s).
Proof.
  induction a as [|d a IH].
  - simpl. pose proof (str_split_nonempty c s). by destruct (str_split c s).
  - destruct (decide (d = c)) as [->|Hd].
    + simpl. rewrite N.eqb_refl.
      pose proof (str_split_nonempty c a).
      destruct (str_split c a) as [|l ls] eqn:E; [done|].
      rewrite IH. reflexivity.
    + rewrite <- app_comm_cons, !str_split_cons by done. rewrite IH.
      pose proof (str_split_nonempty c a).
      destruct (str_split c a) as [|l [|l' ls]] eqn:E; [done| |]; reflexivity.
Qed.

Lemma str_split_single_line (s : str) :
  single_line s → str_split char_newline s = [s].
Proof.
  unfold single_line. induction s as [|d s IH]; intros H; [reflexivity|].
  rewrite str_split_cons by (intros ->; apply H; by left).
  rewrite IH; [reflexivity|]. intros Hin. apply H. by right.
Qed.

Lemma single_line_take (n : nat) (s : str) : single_line s → single_line (take n s).
Proof.
  unfold single_line. intros H Hin. apply H.
  rewrite <- (take_drop n s). apply elem_of_app. by left.
Qed.

Lemma leading_whitespace_None (l : str) :
  leading_whitespace l = None ↔ forallb is_blank_char l = true.
Proof.
  induction l as [|c l IH]; simpl; [done|].
  destruct (is_blank_char c); simpl; [|done].
  rewrite <- IH. by destruct (leading_whitespace l).
Qed.

Lemma leading_whitespace_prefix (l i : str) :
  leading_whitespace l = Some i → i `prefix_of` l.
Proof.
  revert i. induction l as [|c l IH]; intros i; simpl; [done|].
  destruct (is_blank_char c).
  - destruct (leading_whitespace l) as [j|]; [|done].
    intros [= <-]. by apply prefix_cons, IH.
  - intros [= <-]. apply prefix_nil.
Qed.

Lemma leading_whitespace_app (l x i : str) :
  leading_whitespace l = Some i → leading_whitespace (l ++ x) = Some i.
Proof.
  revert i. induction l as [|c l IH]; intros i; simpl; [done|].
  destruct (is_blank_char c); [|done].
  destruct (leading_whitespace l) as [j|]; [|done].
  intros [= <-]. by rewrite (IH j).
Qed.

Lemma whitespace_only_sub_nonblank (l : str) :
  leading_whitespace l ≠ None → whitespace_only_sub l = l.
Proof.
  intros H. unfold whitespace_only_sub.
  destruct (forallb is_blank_char l) eqn:E; [|reflexivity].
  by apply leading_whitespace_None in E.
Qed.

Lemma leading_whitespace_sub (l : str) :
  leading_whitespace (whitespace_only_sub l) = leading_whitespace l.
Proof.
  unfold whitespace_only_sub.
  destruct (forallb is_blank_char l) eqn:E; [|reflexivity].
  apply leading_whitespace_None in E. by rewrite E.
Qed.

Lemma str_startswith_prefix_of (s p : str) :
  str_startswith s p = true ↔ p `prefix_of` s.
Proof. apply str_startswith_prefix. Qed.

Lemma first_mismatch_Some (m indent : str) (k i : nat) :
  first_mismatch m indent k = Some i →
  k ≤ i ∧ take (i - k) m = take (i - k) indent.
Proof.
  revert indent k. induction m as [|x m IH]; intros [|y indent] k; simpl;
    try done.
  destruct (N.eqb_spec x y) as [->|Hne].
  - intros [Hk Ht]%IH. split; [lia|].
    replace (i - k) with (S (i - S k)) by lia. simpl. by rewrite Ht.
  - intros [= <-]. split; [lia|]. by rewrite Nat.sub_diag.
Qed.

Lemma first_mismatch_None (m indent : str) (k : nat) :
  first_mismatch m indent k = None →
  m `prefix_of` indent ∨ indent `prefix_of` m.
Proof.
  revert indent k. induction m as [|x m IH]; intros [|y indent] k; simpl.
  - by left.
  - left. apply prefix_nil.
  - right. apply prefix_nil.
  - destruct (N.eqb_spec x y) as [->|Hne]; [|done].
    intros [H|H]%IH; [left|right]; by apply prefix_cons.
Qed.

Lemma margin_step_Some (margin : option str) (indent : str) :
  ∃ m, margin_step margin indent = Some m
       ∧ m `prefix_of` indent
       ∧ ∀ m0, margin = Some m0 → m `prefix_of` m0.
Proof.
  destruct margin as [m0|]; simpl.
  - destruct (str_startswith indent m0) eqn:E1.
    { exists m0. split; [done|]. split; [by apply str_startswith_prefix_of|].
      by intros ? [= <-]. }
    destruct (str_startswith m0 indent) eqn:E2.
    { exists indent. split; [done|]. split; [done|].
      intros ? [= <-]. by apply str_startswith_prefix_of. }
    destruct (first_mismatch m0 indent 0) as [i|] eqn:E3.
    + exists (take i m0). split; [done|].
      apply first_mismatch_Some in E3 as [_ Ht]. rewrite Nat.sub_0_r in Ht.
      split; [rewrite Ht; apply prefix_take|].
      intros ? [= <-]. apply prefix_take.
    + apply first_mismatch_None in E3 as [H|H];
        apply str_startswith_prefix_of in H; congruence.
  - exists indent. split; [done|]. split; [done|]. by intros.
Qed.

(** The margin [dedent] computes is a prefix of the indentation of
    every line that has one: the property CPython's own (disabled)
    sanity check asserts. *)
Lemma fold_margin_prefix (indents : list str) (acc : option str) (m : str) :
  fold_left margin_step indents acc = Some m →
  (∀ a, acc = Some a → m `prefix_of` a) ∧ Forall (prefix m) indents.
Proof.
  revert acc. induction indents as [|i indents IH]; intros acc; simpl.
  - intros ->. split; [by intros ? [= <-]|constructor].
  - destruct (margin_step_Some acc i) as (m1 & -> & Hi & Hacc).
    intros [H1 H2]%IH. specialize (H1 m1 eq_refl). split.
    + intros a Ha. etrans; [exact H1|]. by apply Hacc.
    + constructor; [by etrans|done].
Qed.

Lemma dedent_margin_prefix (lines : list str) (m l i : str) :
  dedent_margin lines = Some m → l ∈ lines →
  leading_whitespace l = Some i → m `prefix_of` l.
Proof.
  unfold dedent_margin. intros [_ H]%fold_margin_prefix Hl Hi.
  rewrite Forall_forall in H. etrans.
  - apply H. apply list_elem_of_omap. eauto.
  - by apply leading_whitespace_prefix.
Qed.

Lemma remove_margin_app (m l x : str) :
  m `prefix_of` l → remove_margin m (l ++ x) = remove_margin m l ++ x.
Proof.
  intros H. unfold remove_margin.
  pose proof H as H'. apply str_startswith_prefix_of in H' as ->.
  rewrite str_startswith_app_l by (by apply str_startswith_prefix_of).
  destruct H as [r ->]. rewrite <- app_assoc, !drop_app_length. reflexivity.
Qed.

(** Text appended to lines that already have a character other than
    space and tab passes through [dedent] unchanged, on its line. *)
Lemma whitespace_only_sub_zip (ls xs : list str) :
  Forall2 appendable ls xs →
  map whitespace_only_sub (zip_with app ls xs)
  = zip_with app (map whitespace_only_sub ls) xs.
Proof.
  induction 1 as [|l x ls xs [->|Hl] _ IH]; simpl; [done| |].
  - by rewrite !app_nil_r, IH.
  - rewrite IH. f_equal. rewrite (whitespace_only_sub_nonblank l Hl).
    apply whitespace_only_sub_nonblank.
    destruct (leading_whitespace l) as [i|] eqn:E; [|done].
    by rewrite (leading_whitespace_app l x i E).
Qed.

Lemma leading_whitespace_zip (ls xs : list str) :
  Forall2 appendable ls xs →
  omap leading_whitespace (zip_with app ls xs) = omap leading_whitespace ls.
Proof.
  induction 1 as [|l x ls xs [->|Hl] _ IH]; simpl; [done| |].
  - rewrite app_nil_r. destruct (leading_whitespace l); [f_equal|]; exact IH.
  - destruct (leading_whitespace l) as [i|] eqn:E; [|done].
    rewrite (leading_whitespace_app l x i E). f_equal. exact IH.
Qed.

Lemma appendable_sub (ls xs : list str) :
  Forall2 appendable ls xs →
  Forall2 appendable (map whitespace_only_sub ls) xs.
Proof.
  induction 1 as [|l x ls xs H _ IH]; simpl; constructor; [|done].
  destruct H as [->|H]; [by left|right]. by rewrite leading_whitespace_sub.
Qed.

Lemma remove_margin_zip (m : str) (ls xs : list str) :
  Forall2 appendable ls xs →
  (∀ l i, l ∈ ls → leading_whitespace l = Some i → m `prefix_of` l) →
  map (remove_margin m) (zip_with app ls xs)
  = zip_with app (map (remove_margin m) ls) xs.
Proof.
  induction 1 as [|l x ls xs H _ IH]; intros Hm; simpl; [done|].
  rewrite IH by (intros; eapply Hm; [by right|done]). f_equal.
  destruct H as [->|H]; [by rewrite !app_nil_r|].
  destruct (leading_whitespace l) as [i|] eqn:E; [|done].
  apply remove_margin_app. eapply Hm; [by left|done].
Qed.

Lemma dedent_lines_zip (ls xs : list str) :
  Forall2 appendable ls xs →
  dedent_lines (zip_with app ls xs) = zip_with app (dedent_lines ls) xs.
Proof.
  intros H. unfold dedent_lines.
  rewrite whitespace_only_sub_zip by done.
  pose proof (appendable_sub ls xs H) as H'.
  unfold dedent_margin. rewrite leading_whitespace_zip by done.
  fold (dedent_margin (map whitespace_only_sub ls)).
  destruct (dedent_margin (map whitespace_only_sub ls)) as [[|c m]|] eqn:E;
    [done| |done].
  apply remove_margin_zip; [done|].
  intros l i Hl Hi. by eapply dedent_margin_prefix.
Qed.

Lemma zip_with_app_nil (ls : list str) :
  zip_with app ls (replicate (length ls) []) = ls.
Proof. induction ls as [|l ls IH]; simpl; [done|]. by rewrite app_nil_r, IH. Qed.

Lemma two_holes_zip (L1 L3 : list str) (a b u v : str) :
  L1 ++ (a ++ u) :: (b ++ v) :: L3
  = zip_with app (L1 ++ a :: b :: L3)
      (replicate (length L1) [] ++ u :: v :: replicate (length L3) []).
Proof.
  rewrite zip_with_app by (by rewrite length_replicate).
  simpl. by rewrite !zip_with_app_nil.
Qed.

Lemma two_holes_appendable (L1 L3 : list str) (a b u v : str) :
  leading_whitespace a ≠ None → leading_whitespace b ≠ None →
  Forall2 appendable (L1 ++ a :: b :: L3)
    (replicate (length L1) [] ++ u :: v :: replicate (length L3) []).
Proof.
  intros Ha Hb.
  assert (∀ L : list str, Forall2 appendable L (replicate (length L) [])) as H.
  { induction L; simpl; constructor; [by left|done]. }
  apply Forall2_app; [apply H|].
  constructor; [by right|]. constructor; [by right|apply H].
Qed.

(** The lines of a text with two single-line holes [x] and [y], the
    text between them ending its first line and starting the next. *)
Lemma str_split_two_holes (h x m y t m0 : str) :
  single_line x → single_line y →
  removelast (str_split char_newline m) = [m0] →
  str_split char_newline (h ++ x ++ m ++ y ++ t)
  = removelast (str_split char_newline h)
    ++ (List.last (str_split char_newline h) [] ++ x ++ m0)
       :: (List.last (str_split char_newline m) [] ++ y
           ++ hd [] (str_split char_newline t))
       :: tl (str_split char_newline t).
Proof.
  intros Hx Hy Hm.
  rewrite (str_split_app _ h), (str_split_app _ x),
    (str_split_app _ m), (str_split_app _ y).
  rewrite (str_split_single_line x Hx), (str_split_single_line y Hy), Hm.
  simpl. by rewrite <- ?app_assoc.
Qed.

(** For a project name without line break, the manifest is the
    template with its margin removed and the name, unchanged, in its
    two places. *)
Lemma manifest_content_single_line (name : str) :
  single_line name → manifest_content name = manifest_text name.
Proof.
  intros Hn. unfold manifest_content, manifest_text, dedent.
  rewrite (str_split_two_holes _ name _ (take 12 name) _ [char_dquote; 44%N])
    by (try apply single_line_take; try done; vm_compute; reflexivity).
  rewrite two_holes_zip.
  rewrite dedent_lines_zip
    by (apply two_holes_appendable; vm_compute; discriminate).
  match goal with |- context [dedent_lines ?L] => vm_eval (dedent_lines L) end.
  match goal with |- context [replicate ?n []] => vm_eval n end.
  match goal with |- context [_ :: _ :: replicate ?n []] => vm_eval n end.
  match goal with |- context [hd [] ?L] => vm_eval (hd [] L) end.
  match goal with
  | |- _ = ?A ++ name ++ ?B ++ take 12 name ++ ?C =>
      vm_eval A; vm_eval B; vm_eval C
  end.
  cbn [replicate zip_with str_join app].
  rewrite <- ?app_assoc.
  cbn [app].
  reflexivity.
Qed.

End Dedent.

(** * The claims of the specification *)

(** C1: the files a run writes are a function of the request alone.
    In every world the run exits with status 0 and writes the
    templates [template_outputs] selects, each at its relative path
    below the output directory and with its content, in that order;
    nothing of the world but the directory the output path resolves
    in enters.  Run again where the first run ended, the script writes
    the same files with the same contents and leaves the file system
    as the first run left it. *)
Theorem generate_deterministic (r : GenerationRequest) (w : World) :
  let w1 := final_world (generate r w) in
  exit_status (generate r w) = 0%Z
  ∧ files_written (generate r w)
    = map (place (output_base r w)) (template_outputs r)
  ∧ files_written (generate r w1) = files_written (generate r w)
  ∧ final_world (generate r w1) = w1.
Proof.
  intros w1.
  assert (cwd w1 = cwd w) as Hcwd.
  { subst w1. by rewrite generate_final_world. }
  assert (output_base r w1 = output_base r w) as Hb
    by (by apply output_base_cwd).
  split; [apply generate_exit_status|].
  split; [apply generate_files_written|].
  split.
  - by rewrite !generate_files_written, Hb.
  - rewrite generate_final_world, Hb, Hcwd. subst w1.
    rewrite generate_final_world. cbn [fs cwd].
    by rewrite store_files_idemp.
Qed.

(** ** The manifest and multi-line names *)

(** For a single-line project name the manifest on disk is the
    intended one: [name] holds the name, [short_name] its first 12
    characters, nothing escaped, nothing removed. *)
Lemma manifest_stored_single_line (r : GenerationRequest) (w : World) :
  single_line (req_project_name r) →
  fs (final_world (generate r w))
    !! os.path.join (output_base r w) [lit "app"; lit "manifest.ts"]
  = Some (manifest_text (req_project_name r)).
Proof.
  intros Hn. rewrite manifest_stored. f_equal.
  by apply manifest_content_single_line.
Qed.

(** C2 on a project name of two lines, the second indented by one
    space: the manifest on disk does not hold the name.  [dedent] runs
    after the name is interpolated, takes the one space for the margin
    of the whole text and removes it: the [name] and [short_name]
    fields read [my], line break, [app]. *)
Theorem manifest_fields_multiline_name (out : str) (w : World) :
  let name := lit "my
 app" in
  let r := mkRequest name Manual false false out in
  ∃ c : str,
    fs (final_world (generate r w))
      !! os.path.join (output_base r w) [lit "app"; lit "manifest.ts"] = Some c
    ∧ str_contains name c = false
    ∧ str_contains (lit "name: ~my
app~,
") c = true
    ∧ str_contains (lit "short_name: ~my
app~,
") c = true
    ∧ c ≠ manifest_text name.
Proof.
  intros name r. exists (manifest_content name).
  split; [apply (manifest_stored r w)|].
  repeat split; try (vm_compute; reflexivity).
  intros H. apply (f_equal (take 1)) in H. vm_compute in H. discriminate H.
Qed.



(** C4: for either approach and every project name, the worker script
    on disk after the run contains the [push] listener and the
    [notificationclick] listener exactly when [push] is set.  With
    [push] it contains the whole handler text of its approach, both
    blocks; without, not even the quoted event names occur. *)
Theorem push_handlers_iff_push (r : GenerationRequest) (w : World) :
  ∃ c : str,
    fs (final_world (generate r w))
      !! worker_script_path (req_approach r) (output_base r w) = Some c
    ∧ str_contains push_listener c = req_push r
    ∧ str_contains notificationclick_listener c = req_push r
    ∧ (if req_push r
       then str_contains (push_handlers_text (req_approach r)) c = true
       else str_contains (lit "~push~") c = false
            ∧ str_contains (lit "~notificationclick~") c = false).
Proof.
  exists (worker_script_content (req_approach r) (req_push r)).
  split; [apply worker_script_stored|].
  destruct (req_approach r), (req_push r); vm_compute; auto.
Qed.

(** C5: a run with the serwist approach never writes [public/sw.js];
    a run with the manual approach never writes a file [next.config.*]
    nor a file [app/sw.*], whatever stands for the star. *)
Theorem approach_files_exclusive :
  (∀ (name : str) (p o : bool) (out : str) (w : World),
     let r := mkRequest name Serwist p o out in
     (os.path.join (output_base r w) [lit "public"; lit "sw.js"]
        ∉ (files_written (generate r w)).*1))
  ∧ (∀ (name : str) (p o : bool) (out : str) (w : World) (ext : str),
       let r := mkRequest name Manual p o out in
       (os.path.join (output_base r w) [lit "next.config." ++ ext]
          ∉ (files_written (generate r w)).*1)
       ∧ (os.path.join (output_base r w) [lit "app"; lit "sw." ++ ext]
            ∉ (files_written (generate r w)).*1)).
Proof.
  split.
  - intros name p o out w r.
    rewrite os_path_join_plain by done.
    apply not_written. rewrite relative_paths_eq. subst r.
    cbn [req_approach req_offline].
    intros H. destruct o; cbn [app] in H; not_in_concrete H.
  - intros name p o out w ext r. split.
    + unfold os.path.join; cbn [fold_left].
      rewrite os_path_join_step_first by reflexivity.
      apply not_written. rewrite relative_paths_eq. subst r.
      cbn [req_approach req_offline].
      intros H. destruct o; cbn [app] in H; not_in_concrete H.
    + change (os.path.join (output_base r w) [lit "app"; lit "sw." ++ ext])
        with (os.path.join_step (os.path.join (output_base r w) [lit "app"])
                (lit "sw." ++ ext)).
      rewrite os_path_join_plain by done.
      rewrite os_path_join_step_next.
      * rewrite <- !app_assoc.
        apply not_written. rewrite relative_paths_eq. subst r.
        cbn [req_approach req_offline].
        intros H. destruct o; cbn [app] in H; not_in_concrete H.
      * by destruct (output_base r w).
      * rewrite app_assoc. by rewrite str_endswith_char_app.
      * reflexivity.
Qed.



(** C7: switching [offline] on adds exactly two files to the run of
    the same request with [offline] off, the offline page
    [app/offline/page.tsx] and the hook [hooks/useOnlineStatus.ts],
    both new paths, written after the others; the worker script holds
    the same content in both runs. *)
Theorem offline_adds_two_files (name : str) (a : Approach) (p : bool)
    (out : str) (w : World) :
  let r_on := mkRequest name a p true out in
  let r_off := mkRequest name a p false out in
  let base := output_base r_off w in
  let page := os.path.join base [lit "app"; lit "offline"; lit "page.tsx"] in
  let hook := os.path.join base [lit "hooks"; lit "useOnlineStatus.ts"] in
  files_written (generate r_on w)
  = files_written (generate r_off w)
    ++ [(page, offline_page_content); (hook, online_hook_content)]
  ∧ page ≠ hook
  ∧ (page ∉ (files_written (generate r_off w)).*1)
  ∧ (hook ∉ (files_written (generate r_off w)).*1)
  ∧ fs (final_world (generate r_on w)) !! worker_script_path a base
    = Some (worker_script_content a p)
  ∧ fs (final_world (generate r_off w)) !! worker_script_path a base
    = Some (worker_script_content a p).
Proof.
  intros r_on r_off base page hook.
  assert (output_base r_on w = base) as Hb by reflexivity.
  split; [|split; [|split; [|split; [|split]]]].
  - rewrite !generate_files_written, Hb. fold base.
    unfold template_outputs. subst r_on r_off.
    cbn [req_project_name req_approach req_push req_offline].
    rewrite app_nil_r, app_assoc, map_app. reflexivity.
  - subst page hook. rewrite !os_path_join_plain by done.
    intros H. do 2 apply app_inv_head in H. vm_compute in H. discriminate H.
  - subst page. rewrite os_path_join_plain by done.
    apply not_written. rewrite relative_paths_eq. subst r_off.
    cbn [req_approach req_offline].
    intros H. destruct a; cbn [app] in H; not_in_concrete H.
  - subst hook. rewrite os_path_join_plain by done.
    apply not_written. rewrite relative_paths_eq. subst r_off.
    cbn [req_approach req_offline].
    intros H. destruct a; cbn [app] in H; not_in_concrete H.
  - rewrite <- Hb. apply (worker_script_stored r_on w).
  - apply (worker_script_stored r_off w).
Qed.


(** C9: within one run on a valid request, the paths of the files
    written are pairwise distinct: no path is written twice. *)
Theorem written_paths_distinct (r : GenerationRequest) (w : World) :
  NoDup (files_written (generate r w)).*1.
Proof. apply written_paths_NoDup. Qed.

(** The second half of C10 holds: a double quote in the project name
    reaches the manifest as it is and ends the string literal early. *)
Lemma manifest_quote_unescaped :
  str_contains (lit "    name: ~say ~hi~~,
") (manifest_content (lit "say ~hi~")) = true.
Proof. vm_compute. reflexivity. Qed.

(** C10 on a multi-line project name with a double quote: the quote
    arrives unescaped, but the name is not embedded character for
    character: the two spaces that open its second line are gone. *)
Theorem manifest_embedding_multiline_name (out : str) (w : World) :
  let name := lit "pwa
  ~demo~" in
  let r := mkRequest name Serwist false false out in
  ∃ c : str,
    fs (final_world (generate r w))
      !! os.path.join (output_base r w) [lit "app"; lit "manifest.ts"] = Some c
    ∧ str_contains ([char_dquote] ++ name ++ [char_dquote]) c = false
    ∧ str_contains (lit "name: ~pwa
~demo~~,
") c = true.
Proof.
  intros name r. exists (manifest_content name).
  split; [apply (manifest_stored r w)|].
  repeat split; vm_compute; reflexivity.
Qed.

(** * Further properties of the script

    Properties of [main], [write_file] and the [generate_*] functions
    beyond the claims above: what a run prints, which directories it
    creates, what it leaves on disk, and what its texts look like. *)

(** Every command line is rejected by [parse_args] or carries a request. *)
Lemma main_cases (argv : CommandLine) (w : World) :
  (¬ (is_Some (given_project_name argv)
      ∧ ∃ v, given_approach argv = Some v ∧ v ∈ approach_choices)
   ∧ ∃ e, main argv w = (SystemExit 2%Z, w, [UsageError e]))
  ∨ (∃ r, main argv = generate r
          ∧ given_project_name argv = Some (req_project_name r)
          ∧ given_approach argv = Some (approach_name (req_approach r))
          ∧ req_push r = given_push argv
          ∧ req_offline r = given_offline argv
          ∧ req_output_dir r = default (lit ".") (given_output argv)).
Proof.
  assert (∀ v, existsb (str_eqb v) approach_choices = false → v ∉ approach_choices)
    as Hno.
  { intros v E Hv. apply not_true_iff_false in E. apply E.
    apply existsb_exists. exists v. split; [by apply list_elem_of_In|].
    by apply str_eqb_eq. }
  destruct argv as [[name|] [v|] p o out]; cbn [given_project_name given_approach].
  - destruct (existsb (str_eqb v) approach_choices) eqn:E.
    + right. apply existsb_exists in E as (x & Hx & Heq).
      apply str_eqb_eq in Heq as <-.
      assert (∃ a, v = approach_name a) as [a ->].
      { destruct Hx as [<-|[<-|[]]]; [by exists Serwist|by exists Manual]. }
      exists (mkRequest name a p o (default (lit ".") out)).
      split; [|done].
      unfold generate, main, command_line, parse_args.
      cbn [given_approach given_project_name given_push given_offline
           given_output req_project_name req_approach req_push req_offline
           req_output_dir].
      destruct a; reflexivity.
    + left. split; [intros [_ (v' & [= <-] & Hv)]; by apply (Hno v)|].
      exists (InvalidChoice v). unfold main, parse_args, bind.
      cbn [given_approach]. rewrite E. reflexivity.
  - left. split; [by intros [_ (v' & [=] & _)]|].
    exists MissingRequired. reflexivity.
  - left. split; [by intros [[? [=]] _]|].
    destruct (existsb (str_eqb v) approach_choices) eqn:E.
    + exists MissingRequired. unfold main, parse_args, bind.
      cbn [given_approach]. rewrite E. reflexivity.
    + exists (InvalidChoice v). unfold main, parse_args, bind.
      cbn [given_approach]. rewrite E. reflexivity.
  - left. split; [by intros [[? [=]] _]|].
    exists MissingRequired. reflexivity.
Qed.

(** The events of a run on a request, in full. *)
Lemma generate_events (r : GenerationRequest) (w : World) :
  let base := output_base r w in
  let serwist := match req_approach r with Serwist => true | Manual => false end in
  events_of (generate r w)
  = [PrintLine (char_newline :: lit "Generating PWA config for '"
                  ++ req_project_name r ++ lit "' ("
                  ++ approach_name (req_approach r) ++ lit " approach)");
     PrintLine (lit "Output directory: " ++ base ++ [char_newline])]
    ++ concat (map (write_events base) (take 3 (template_outputs r)))
    ++ (if serwist
        then [PrintLine (char_newline :: lit "  Install dependencies:");
              PrintLine (lit "    npm install @serwist/next && npm install -D serwist")]
        else [])
    ++ concat (map (write_events base) (drop 3 (template_outputs r)))
    ++ (if req_push r
        then [PrintLine (char_newline :: lit "  Generate VAPID keys:");
              PrintLine (lit "    npx web-push generate-vapid-keys");
              PrintLine (char_newline :: lit "  Add to .env:");
              PrintLine (lit "    NEXT_PUBLIC_VAPID_PUBLIC_KEY=...");
              PrintLine (lit "    VAPID_PRIVATE_KEY=...");
              PrintLine (lit "    VAPID_SUBJECT=mailto:your@email.com")]
             ++ (if serwist
                 then [PrintLine (char_newline :: lit "  Install web-push for server-side:");
                       PrintLine (lit "    npm install web-push")]
                 else [])
        else [])
    ++ [PrintLine done_line].
Proof.
  intros base serwist. subst base serwist. unfold generate, main.
  rewrite (bind_ok _ _ _ _ _ _ (parse_args_request r w)).
  rewrite (bind_ok _ _ _ _ _ _ (output_base_run r w)).
  generalize (output_base r w) as base. intros base.
  destruct r as [name a p o out]; cbn [project_name approach push offline output].
  rewrite !approach_name_serwist.
  unfold template_outputs, write_events, done_line.
  cbn [req_project_name req_approach req_push req_offline].
  destruct a, p, o;
    cbv [bind generate_manifest generate_serwist_sw generate_serwist_config
         generate_manual_sw generate_sw_registration generate_offline_page
         generate_online_hook write_file os.makedirs open_write print emit ret
         cwd fs events_of];
    cbn [take drop map concat app fst snd]; reflexivity.
Qed.

Lemma str_contains_infix (n a b : str) : str_contains n (a ++ n ++ b) = true.
Proof.
  induction a as [|d a IH].
  - assert (str_startswith (n ++ b) n = true) as H
      by (apply str_startswith_prefix; eauto).
    destruct n, b; simpl in *; by rewrite ?H.
  - cbn [app str_contains]. rewrite IH. apply orb_true_r.
Qed.

Lemma str_contains_infix_eq (n hay a b : str) :
  hay = a ++ n ++ b → str_contains n hay = true.
Proof. intros ->. apply str_contains_infix. Qed.

(** X1: for a project name without line break, the manifest on disk
    is the template with its margin removed and the name in it as
    given: the [name] line holds the project name between double
    quotes and the [short_name] line its first 12 characters, with no
    character escaped, added or removed. *)
Theorem manifest_single_line_verbatim (r : GenerationRequest) (w : World) :
  single_line (req_project_name r) →
  ∃ c : str,
    fs (final_world (generate r w))
      !! os.path.join (output_base r w) [lit "app"; lit "manifest.ts"] = Some c
    ∧ c = manifest_text (req_project_name r)
    ∧ str_contains (lit "    name: ~" ++ req_project_name r ++ lit "~,
") c = true
    ∧ str_contains (lit "    short_name: ~" ++ take 12 (req_project_name r) ++ lit "~,
") c = true.
Proof.
  intros Hn. exists (manifest_text (req_project_name r)).
  split; [by apply manifest_stored_single_line|]. split; [done|].
  generalize (req_project_name r) as name. clear. intros name.
  unfold manifest_text.
  match goal with
  | |- context [?A ++ name ++ ?B ++ take 12 name ++ ?C] =>
      let A1 := eval vm_compute in (take (length A - 11) A) in
      let B1 := eval vm_compute in (drop 3 B) in
      let C1 := eval vm_compute in (drop 3 C) in
      assert (A = A1 ++ lit "    name: ~") as -> by (vm_compute; reflexivity);
      assert (B = lit "~,
" ++ lit "    short_name: ~") as HB by (vm_compute; reflexivity);
      assert (C = lit "~,
" ++ C1) as -> by (vm_compute; reflexivity);
      generalize A1 C1
  end.
  intros A1 C1. rewrite HB. clear HB. split.
  - eapply (str_contains_infix_eq _ _ A1 _).
    rewrite <- !app_assoc. reflexivity.
  - match goal with
    | |- str_contains _ ((?X ++ ?P) ++ name ++ (?Q ++ _) ++ _) = true =>
        eapply (str_contains_infix_eq _ _ (X ++ P ++ name ++ Q) _)
    end.
    rewrite <- !app_assoc. reflexivity.
Qed.

Lemma manifest_single_line_verbatim_witness :
  let r := mkRequest (lit "my-application") Serwist true true (lit ".") in
  let w := mkWorld (lit "/home/dev/my-application") ∅ in
  ∃ c : str,
    fs (final_world (generate r w))
      !! os.path.join (output_base r w) [lit "app"; lit "manifest.ts"] = Some c
    ∧ c = manifest_text (req_project_name r)
    ∧ str_contains (lit "    name: ~" ++ req_project_name r ++ lit "~,
") c = true
    ∧ str_contains (lit "    short_name: ~" ++ take 12 (req_project_name r) ++ lit "~,
") c = true.
Proof.
  apply (manifest_single_line_verbatim
           (mkRequest (lit "my-application") Serwist true true (lit "."))
           (mkWorld (lit "/home/dev/my-application") ∅)).
  apply (bool_decide_unpack _). vm_compute. reflexivity.
Defined.


Lemma write_protocol_app (t1 t2 : list event) :
  write_protocol t1 → write_protocol t2 → write_protocol (t1 ++ t2).
Proof. induction 1; simpl; intros; try constructor; auto. Qed.

Lemma write_protocol_writes (base : str) (outs : list (relative_components * str)) :
  write_protocol (concat (map (write_events base) outs)).
Proof.
  induction outs as [|o outs IH]; simpl; [constructor|].
  by apply write_protocol_write.
Qed.

(** X3: every run keeps the discipline of [write_file], whatever the
    command line: each file is written right after [os.makedirs] on
    the directory [os.path.dirname] gives for it and is reported right
    after as created; nothing is written in any other way. *)
Theorem main_write_protocol (argv : CommandLine) (w : World) :
  write_protocol (events_of (main argv w)).
Proof.
  destruct (main_cases argv w) as [[_ [e ->]]|(r & -> & _)].
  - repeat constructor.
  - rewrite generate_events.
    repeat first
      [ apply write_protocol_writes
      | apply write_protocol_app
      | apply write_protocol_print
      | apply write_protocol_nil
      | match goal with |- write_protocol (if ?b then _ else _) => destruct b end ].
Qed.









Lemma store_files_list_to_map (files : list (str * str))
    (m : gmap (list N) (list N)) :
  NoDup files.*1 → store_files files m = list_to_map files ∪ m.
Proof.
  revert m. induction files as [|[p c] files IH]; intros m Hnd.
  - simpl. by rewrite (left_id_L ∅ (∪)).
  - simpl in Hnd. apply NoDup_cons in Hnd as [Hp Hnd].
    rewrite store_files_cons, (IH _ Hnd). simpl.
    rewrite <- insert_union_l.
    by rewrite insert_union_r by (by apply not_elem_of_list_to_map_1).
Qed.

Lemma generate_overlay (r : GenerationRequest) (w : World) :
  fs (final_world (generate r w))
  = list_to_map (files_written (generate r w)) ∪ fs w.
Proof.
  rewrite generate_final_world. cbn [fs].
  rewrite generate_files_written. apply store_files_list_to_map.
  rewrite <- generate_files_written. apply written_paths_NoDup.
Qed.

Lemma generate_frame (r : GenerationRequest) (w : World) (p : str) :
  p ∉ (files_written (generate r w)).*1 →
  fs (final_world (generate r w)) !! p = fs w !! p.
Proof.
  intros Hp. rewrite generate_overlay.
  apply lookup_union_r. by apply not_elem_of_list_to_map_1.
Qed.


Lemma worker_script_path_rel (a : Approach) (base : str) :
  worker_script_path a base
  = base ++ base_separator base
    ++ match a with Serwist => lit "app/sw.ts" | Manual => lit "public/sw.js" end.
Proof. destruct a; unfold worker_script_path; by rewrite os_path_join_plain. Qed.

(** X7: switching the approach leaves the other approach's worker
    script behind.  When a run with one approach is followed by a run
    with the other approach into the same output directory, the worker
    script of the first run is still on disk with its content, next to
    the worker script of the second; the manifest is the second
    run's. *)
Theorem approach_switch_leaves_stale_worker
    (name1 name2 : str) (a1 a2 : Approach) (p1 p2 o1 o2 : bool)
    (out : str) (w : World) :
  a1 ≠ a2 →
  let r1 := mkRequest name1 a1 p1 o1 out in
  let r2 := mkRequest name2 a2 p2 o2 out in
  let base := output_base r1 w in
  let w2 := final_world (generate r2 (final_world (generate r1 w))) in
  fs w2 !! worker_script_path a1 base = Some (worker_script_content a1 p1)
  ∧ fs w2 !! worker_script_path a2 base = Some (worker_script_content a2 p2)
  ∧ fs w2 !! os.path.join base [lit "app"; lit "manifest.ts"]
    = Some (manifest_content name2).
Proof.
  intros Hne r1 r2 base w2.
  set (w1 := final_world (generate r1 w)).
  assert (output_base r2 w1 = base) as Hb.
  { subst base. unfold output_base. cbn [req_output_dir].
    change (match os.path.abspath out w1 with (Ok b, _, _) => b | (SystemExit _, _, _) => [] end
            = match os.path.abspath out w with (Ok b, _, _) => b | (SystemExit _, _, _) => [] end).
    assert (cwd w1 = cwd w) as Hc by (subst w1; by rewrite generate_final_world).
    unfold os.path.abspath, bind, ret, os.getcwd.
    destruct (str_startswith out (lit "/")); simpl; by rewrite ?Hc. }
  split; [|split].
  - subst w2. fold w1. rewrite generate_frame.
    + apply (worker_script_stored r1 w).
    + rewrite worker_script_path_rel, <- Hb. apply not_written.
      rewrite relative_paths_eq. cbn [req_approach req_offline].
      intros H. destruct a1, a2, o2; try done; cbn [app] in H; not_in_concrete H.
  - subst w2. fold w1. rewrite <- Hb. apply (worker_script_stored r2 w1).
  - subst w2. fold w1. rewrite <- Hb. apply (manifest_stored r2 w1).
Qed.

Lemma approach_switch_leaves_stale_worker_witness :
  let r1 := mkRequest (lit "shop") Serwist true false (lit "site") in
  let r2 := mkRequest (lit "shop") Manual false false (lit "site") in
  let w := mkWorld (lit "/home/dev") ∅ in
  let base := output_base r1 w in
  let w2 := final_world (generate r2 (final_world (generate r1 w))) in
  fs w2 !! worker_script_path Serwist base = Some (worker_script_content Serwist true)
  ∧ fs w2 !! worker_script_path Manual base = Some (worker_script_content Manual false)
  ∧ fs w2 !! os.path.join base [lit "app"; lit "manifest.ts"]
    = Some (manifest_content (lit "shop")).
Proof.
  apply (approach_switch_leaves_stale_worker (lit "shop") (lit "shop")
           Serwist Manual true false false false (lit "site")
           (mkWorld (lit "/home/dev") ∅)).
  discriminate.
Defined.

(** ** Directories *)

Lemma str_split_no_sep (c : char) (s : str) :
  Forall (fun seg => c ∉ seg) (str_split c s).
Proof.
  induction s as [|d s IH]; simpl.
  - constructor; [by intros ?%elem_of_nil|constructor].
  - destruct (N.eqb_spec d c) as [->|Hd].
    + constructor; [by intros ?%elem_of_nil|done].
    + pose proof (str_split_nonempty c s).
      destruct (str_split c s) as [|l ls]; [done|].
      apply Forall_cons in IH as [Hl Hls]. constructor; [|done].
      intros [->|?]%elem_of_cons; done.
Qed.

Lemma str_rfind_succ_absent (c : char) (f : str) :
  c ∉ f → str_rfind_succ c f = 0.
Proof.
  induction f as [|d f IH]; intros H; simpl; [done|].
  rewrite IH by (intros ?; apply H; by right).
  destruct (N.eqb_spec d c) as [->|]; [|done]. exfalso. apply H. by left.
Qed.

Lemma str_rfind_succ_last (c : char) (x f : str) :
  c ∉ f → str_rfind_succ c (x ++ c :: f) = S (length x).
Proof.
  intros Hf. induction x as [|d x IH]; simpl.
  - by rewrite str_rfind_succ_absent, N.eqb_refl.
  - by rewrite IH.
Qed.

Lemma str_rstrip_snoc (c : char) (y : str) :
  str_rstrip c (y ++ [c]) = str_rstrip c y.
Proof.
  induction y as [|d y IH]; simpl; [by rewrite N.eqb_refl|]. by rewrite IH.
Qed.

Lemma str_rstrip_id (c : char) (y : str) :
  str_endswith_char y c = false → str_rstrip c y = y.
Proof.
  unfold str_endswith_char. induction y as [|d y IH]; [done|].
  destruct y as [|e y].
  - simpl. intros ->. done.
  - rewrite last_cons_cons. intros H. specialize (IH H).
    change (str_rstrip c (d :: e :: y))
      with (match str_rstrip c (e :: y) with
            | [] => if (d =? c)%N then [] else [d]
            | r => d :: r
            end).
    by rewrite IH.
Qed.

Lemma not_all_slashes (c : char) (y : str) :
  y ≠ [] → str_endswith_char y c = false → forallb (N.eqb c) y = false.
Proof.
  unfold str_endswith_char. induction y as [|d y IH]; [done|]. intros _.
  destruct y as [|e y].
  - simpl. intros H. by rewrite N.eqb_sym, H.
  - rewrite last_cons_cons. intros H.
    change (forallb (N.eqb c) (d :: e :: y))
      with ((c =? d)%N && forallb (N.eqb c) (e :: y)).
    rewrite IH by done. apply andb_false_r.
Qed.

(** [os.path.dirname] of a path that ends in a file name. *)
Lemma os_path_dirname_file (x f : str) :
  char_slash ∉ f →
  os.path.dirname (x ++ char_slash :: f)
  = if forallb (N.eqb char_slash) (x ++ [char_slash])
    then x ++ [char_slash]
    else str_rstrip char_slash x.
Proof.
  intros Hf. unfold os.path.dirname.
  rewrite str_rfind_succ_last by done.
  assert (take (S (length x)) (x ++ char_slash :: f) = x ++ [char_slash]) as ->.
  { rewrite (cons_middle char_slash x f), app_assoc.
    rewrite take_app_length'; [done|]. rewrite length_app. simpl. lia. }
  destruct (x ++ [char_slash]) as [|d y] eqn:E; [by destruct x|].
  rewrite <- E. destruct (forallb (N.eqb char_slash) (x ++ [char_slash])); simpl;
    [done|apply str_rstrip_snoc].
Qed.

Lemma os_path_normpath_normal (p : str) : normal_path (os.path.normpath p).
Proof.
  unfold os.path.normpath. destruct p as [|a p]; [split; [done|by right]|].
  set (k := if str_startswith (a :: p) (lit "/") then _ else _).
  set (comps := str_split char_slash (a :: p)).
  assert (Forall (fun c => c ≠ [] ∧ char_slash ∉ c)
            (fold_left (os.path.normpath_step k) comps [])) as Hgood.
  { assert (∀ acc, Forall (fun c => c ≠ [] ∧ char_slash ∉ c) acc →
                   Forall (fun c => c ≠ [] ∧ char_slash ∉ c)
                     (fold_left (os.path.normpath_step k) comps acc)) as H;
      [|apply H; constructor].
    pose proof (str_split_no_sep char_slash (a :: p)) as Hs. fold comps in Hs.
    induction Hs as [|c cs Hc _ IH]; intros acc Hacc; [done|].
    simpl. apply IH. unfold os.path.normpath_step.
    destruct (str_eqb c [] || str_eqb c (lit ".")) eqn:E0; [done|].
    apply orb_false_iff in E0 as [E0 _].
    match goal with |- context [if ?b then _ else _] => destruct b end.
    - apply Forall_app. split; [done|]. constructor; [|constructor].
      split; [|done]. intros ->. discriminate E0.
    - clear -Hacc. induction Hacc as [|x l Hx Hl IHl]; [constructor|].
      destruct l; [constructor|]. simpl. constructor; [done|]. apply IHl. }
  set (new_comps := fold_left _ comps []) in *.
  destruct new_comps as [|c cs] eqn:E.
  - simpl. rewrite app_nil_r.
    destruct (repeat char_slash k) as [|d l] eqn:Er; [split; [done|by right]|].
    split; [done|]. left. rewrite <- Er. clear.
    induction k as [|k IH]; [done|]. cbn [repeat forallb].
    by rewrite N.eqb_refl, IH.
  - assert (str_join char_slash (c :: cs) ≠ []
            ∧ str_endswith_char (str_join char_slash (c :: cs)) char_slash = false)
      as [Hne He].
    { clear E. revert c Hgood. induction cs as [|c' cs IH]; intros c Hgood.
      - apply Forall_cons in Hgood as [[Hc Hs] _]. cbn [str_join].
        split; [done|]. unfold str_endswith_char. destruct (last c) as [d|] eqn:El; [|done].
        apply N.eqb_neq. intros ->. apply Hs. by apply last_Some_elem_of.
      - apply Forall_cons in Hgood as [[Hc Hs] Hgood].
        destruct (IH c' Hgood) as [Hne He].
        change (str_join char_slash (c :: c' :: cs))
          with (c ++ char_slash :: str_join char_slash (c' :: cs)).
        split; [by destruct c|].
        rewrite (str_endswith_char_app c (char_slash :: _)) by done.
        rewrite <- He.
        apply (str_endswith_char_app [char_slash]). done. }
    destruct (repeat char_slash k ++ str_join char_slash (c :: cs)) as [|d l] eqn:Er.
    { apply app_eq_nil in Er as [_ Er]. done. }
    rewrite <- Er. split; [by rewrite Er|]. right.
    by rewrite str_endswith_char_app.
Qed.

Lemma output_base_normal (r : GenerationRequest) (w : World) :
  normal_path (output_base r w).
Proof.
  unfold output_base, os.path.abspath, bind, ret, os.getcwd.
  destruct (str_startswith _ _); simpl; apply os_path_normpath_normal.
Qed.

(** Below a normalised base, the directory of a joined path is the
    base joined with the leading components. *)
Lemma os_path_dirname_join (base : str) (comps : list str) :
  normal_path base → comps ≠ [] →
  Forall (fun c => plain_component c = true ∧ char_slash ∉ c) comps →
  os.path.dirname (os.path.join base comps)
  = os.path.join base (removelast comps).
Proof.
  intros [Hb Hn] Hne Hc.
  destruct (exists_last Hne) as (cs & f & ->).
  rewrite removelast_last.
  apply Forall_app in Hc as [Hcs Hf]. apply Forall_cons in Hf as [[Hf Hfs] _].
  assert (forallb plain_component cs = true) as Hcs'.
  { apply forallb_forall. intros c Hc. rewrite Forall_forall in Hcs.
    by apply Hcs, list_elem_of_In. }
  destruct (plain_component_spec f Hf) as (Hfn & Hf0 & Hf1).
  destruct cs as [|c cs].
  - change (os.path.join base ([] ++ [f])) with (os.path.join_step base f).
    change (os.path.join base []) with base.
    rewrite os_path_join_step_first by done.
    unfold base_separator. destruct base as [|b base]; [done|].
    remember (b :: base) as B eqn:EB. clear EB b base.
    destruct Hn as [Hall|Hend].
    + assert (str_endswith_char B char_slash = true) as He.
      { unfold str_endswith_char.
        destruct (last B) as [d|] eqn:El; [|by apply last_None in El].
        apply last_Some_elem_of in El.
        rewrite forallb_forall in Hall. apply list_elem_of_In, Hall in El.
        by rewrite N.eqb_sym. }
      rewrite He. change ([] ++ f) with f.
      destruct (exists_last Hb) as (x & d & ->).
      assert (d = char_slash) as ->.
      { unfold str_endswith_char in He. rewrite last_snoc in He.
        by apply N.eqb_eq in He. }
      rewrite <- app_assoc. change ([char_slash] ++ f) with (char_slash :: f).
      rewrite os_path_dirname_file by done. by rewrite Hall.
    + rewrite Hend. change ([char_slash] ++ f) with (char_slash :: f).
      rewrite os_path_dirname_file by done.
      rewrite forallb_app, not_all_slashes by done.
      by apply str_rstrip_id.
  - unfold os.path.join. rewrite fold_left_app. simpl fold_left at 1.
    fold (os.path.join base (c :: cs)).
    assert (os.path.join base (c :: cs) ≠ []
            ∧ str_endswith_char (os.path.join base (c :: cs)) char_slash = false)
      as [Hj Hje].
    { rewrite os_path_join_plain by done.
      assert (str_join char_slash (c :: cs) ≠ []
              ∧ str_endswith_char (str_join char_slash (c :: cs)) char_slash = false)
        as [H1 H2].
      { clear -Hcs'. revert c Hcs'. induction cs as [|c' cs IH]; intros c Hc.
        - simpl in Hc. apply andb_true_iff in Hc as [Hc _].
          by destruct (plain_component_spec c Hc) as (? & _ & ?).
        - simpl in Hc. apply andb_true_iff in Hc as [Hc Hcs].
          destruct (IH c' Hcs) as [Hne He].
          change (str_join char_slash (c :: c' :: cs))
            with (c ++ char_slash :: str_join char_slash (c' :: cs)).
          split; [by destruct c|].
          rewrite (str_endswith_char_app c (char_slash :: _)) by done.
          rewrite <- He. apply (str_endswith_char_app [char_slash]). done. }
      split.
      - intros H. apply app_eq_nil in H as [_ H]. by apply app_eq_nil in H as [_ H].
      - by rewrite app_assoc, str_endswith_char_app. }
    rewrite os_path_join_step_next by done.
    rewrite os_path_dirname_file by done.
    rewrite forallb_app, not_all_slashes by done. simpl.
    by apply str_rstrip_id.
Qed.

Lemma template_outputs_file_names (r : GenerationRequest) :
  Forall (fun o : relative_components * str =>
            o.1 ≠ []
            ∧ Forall (fun c => plain_component c = true ∧ char_slash ∉ c) o.1)
         (template_outputs r).
Proof.
  destruct r as [name a p o out]. unfold template_outputs.
  cbn [req_project_name req_approach req_push req_offline].
  destruct a, o; cbn [app];
    repeat (apply Forall_cons; split;
            [cbn [fst]; split; [discriminate|];
             repeat (apply Forall_cons; split;
                     [split; [reflexivity|];
                      apply (bool_decide_unpack _); vm_compute; reflexivity|]);
             apply Forall_nil_2|]);
    apply Forall_nil_2.
Qed.

Lemma made_directories_writes (base : str) (outs : list (relative_components * str)) :
  omap made_directory (concat (map (write_events base) outs))
  = map (fun o => os.path.dirname (os.path.join base o.1)) outs.
Proof.
  induction outs as [|o outs IH]; [reflexivity|].
  cbn [map concat]. unfold write_events at 1. cbn [app omap list_omap made_directory].
  f_equal. exact IH.
Qed.

(** X8: the directories the run creates are the output directory and
    the directories below it that the relative paths of its files
    name: for each file written, [os.makedirs] is called on the output
    directory joined with the file's leading path components, in the
    order of writing, and on nothing else. *)
Theorem directories_created (r : GenerationRequest) (w : World) :
  omap made_directory (events_of (generate r w))
  = map (fun o => os.path.join (output_base r w) (removelast o.1))
        (template_outputs r).
Proof.
  rewrite generate_events.
  pose proof (output_base_normal r w) as Hn.
  generalize dependent (output_base r w). intros base Hn.
  rewrite <- (take_drop 3 (template_outputs r)) at 3.
  rewrite map_app.
  assert (∀ outs, Forall (fun o : relative_components * str =>
            o.1 ≠ []
            ∧ Forall (fun c => plain_component c = true ∧ char_slash ∉ c) o.1) outs →
            omap made_directory (concat (map (write_events base) outs))
            = map (fun o => os.path.join base (removelast o.1)) outs) as Hw.
  { intros outs Ho. rewrite made_directories_writes.
    apply Forall_fmap_ext. eapply Forall_impl; [exact Ho|].
    intros o [H1 H2]. by apply os_path_dirname_join. }
  pose proof (template_outputs_file_names r) as Hf.
  rewrite <- (take_drop 3 (template_outputs r)) in Hf.
  apply Forall_app in Hf as [Hf1 Hf2].
  rewrite !omap_app, (Hw _ Hf1), (Hw _ Hf2).
  destruct (req_approach r), (req_push r); cbn [omap list_omap made_directory app];
    by rewrite ?app_nil_r.
Qed.

(** ** The output directory *)

Lemma os_path_normpath_unfold (p : str) :
  p ≠ [] →
  os.path.normpath p
  = let q := repeat char_slash (initial_slashes p)
             ++ str_join char_slash
                  (fold_left (os.path.normpath_step (initial_slashes p))
                     (str_split char_slash p) []) in
    match q with
    | [] => lit "."
    | _ => q
    end.
Proof. destruct p; [done|reflexivity]. Qed.

Lemma str_split_last_sep (c : char) (s : str) :
  str_endswith_char s c = true → List.last (str_split c s) [] = [].
Proof.
  intros H. destruct s as [|d s] using rev_ind; [done|].
  unfold str_endswith_char in H. rewrite last_snoc in H.
  apply N.eqb_eq in H as ->.
  rewrite str_split_app.
  assert (str_split c [c] = [[]; []]) as -> by (simpl; by rewrite N.eqb_refl).
  cbn [hd tl].
  generalize (removelast (str_split c s)) as l.
  generalize (List.last (str_split c s) [] ++ []) as a. intros a l.
  change (l ++ [a; []]) with (l ++ [a] ++ [[]]).
  rewrite app_assoc. apply last_last.
Qed.

Lemma normpath_step_trivial (k : nat) (acc : list str) (c : str) :
  c = [] ∨ c = lit "." → os.path.normpath_step k acc c = acc.
Proof. intros [->| ->]; reflexivity. Qed.

Lemma initial_slashes_dot (d : str) :
  str_startswith d (lit "/") = true →
  initial_slashes (d ++ base_separator d ++ lit ".") = initial_slashes d.
Proof.
  intros [rest ->]%str_startswith_prefix.
  change (lit "/" ++ rest) with (char_slash :: rest).
  unfold initial_slashes, base_separator.
  change (lit "/") with [char_slash]. change (lit "//") with [char_slash; char_slash].
  change (lit "///") with [char_slash; char_slash; char_slash].
  destruct rest as [|b [|c rest]].
  - reflexivity.
  - unfold str_endswith_char. cbn [last].
    destruct (N.eqb_spec b char_slash) as [->|Hb]; [reflexivity|].
    cbn [app str_startswith]. apply N.eqb_neq in Hb. by rewrite Hb.
  - cbn [app str_startswith]. reflexivity.
Qed.

(** Joining [.] to a directory does not change what it normalises to. *)
Lemma os_path_normpath_join_dot (d : str) :
  str_startswith d (lit "/") = true →
  os.path.normpath (os.path.join d [lit "."]) = os.path.normpath d.
Proof.
  intros Hd.
  change (os.path.join d [lit "."]) with (os.path.join_step d (lit ".")).
  rewrite os_path_join_step_first by reflexivity.
  assert (d ≠ []) as Hne by (by destruct d).
  rewrite !os_path_normpath_unfold by (done || by destruct d).
  rewrite initial_slashes_dot by done.
  set (k := initial_slashes d).
  assert (fold_left (os.path.normpath_step k)
            (str_split char_slash (d ++ base_separator d ++ lit ".")) []
          = fold_left (os.path.normpath_step k) (str_split char_slash d) [])
    as ->; [|reflexivity].
  assert (fold_left (os.path.normpath_step k) (str_split char_slash d) []
          = os.path.normpath_step k
              (fold_left (os.path.normpath_step k)
                 (removelast (str_split char_slash d)) [])
              (List.last (str_split char_slash d) [])) as ->.
  { rewrite (app_removelast_last [] (str_split_nonempty char_slash d)) at 1.
    by rewrite fold_left_app. }
  unfold base_separator. destruct d as [|a d]; [done|].
  destruct (str_endswith_char (a :: d) char_slash) eqn:He.
  - rewrite str_split_app.
    rewrite (str_split_last_sep _ _ He).
    change (str_split char_slash ([] ++ lit ".")) with [lit "."].
    cbn [hd tl app]. rewrite !fold_left_app. cbn [fold_left].
    by rewrite !normpath_step_trivial by auto.
  - rewrite str_split_app.
    change (str_split char_slash ([char_slash] ++ lit ".")) with [[]; lit "."].
    cbn [hd tl]. rewrite app_nil_r.
    match goal with
    | |- context [?l ++ [?x; ?y]] => change (l ++ [x; y]) with (l ++ [x] ++ [y])
    end.
    rewrite !fold_left_app. cbn [fold_left].
    by rewrite (normpath_step_trivial k _ (lit ".")) by auto.
Qed.

(** X9: without [--output] the files land in the current directory:
    every path written starts with the normalised current directory
    and the separator [os.path.join] puts after it. *)
Theorem default_output_is_cwd (argv : CommandLine) (w : World) :
  given_output argv = None →
  str_startswith (cwd w) (lit "/") = true →
  let here := os.path.normpath (cwd w) in
  Forall (fun p => str_startswith p (here ++ base_separator here) = true)
         (files_written (main argv w)).*1.
Proof.
  intros Ho Hc here.
  destruct (main_cases argv w) as [[_ [e ->]]|(r & -> & _ & _ & _ & _ & Hout)];
    [constructor|].
  rewrite Ho in Hout. cbn [default] in Hout.
  assert (output_base r w = here) as Hb.
  { unfold output_base, os.path.abspath, bind, ret, os.getcwd. rewrite Hout.
    change (str_startswith (lit ".") (lit "/")) with false. cbn iota beta.
    by apply os_path_normpath_join_dot. }
  rewrite written_paths, Hb. apply Forall_fmap, Forall_forall.
  intros rel _. apply str_startswith_prefix. by exists rel.
Qed.

Lemma default_output_is_cwd_witness :
  let argv := mkCommandLine (Some (lit "shop")) (Some (lit "manual"))
                false true None in
  let w := mkWorld (lit "/home/dev/shop/") ∅ in
  let here := os.path.normpath (cwd w) in
  Forall (fun p => str_startswith p (here ++ base_separator here) = true)
         (files_written (main argv w)).*1.
Proof.
  apply (default_output_is_cwd
           (mkCommandLine (Some (lit "shop")) (Some (lit "manual")) false true None)
           (mkWorld (lit "/home/dev/shop/") ∅)); reflexivity.
Defined.



(** ** The generated texts *)


(** X12: the companion file of each approach points at the worker
    script the same run writes.  With serwist, [next.config.ts] names
    [app/sw.ts], the relative path of the worker script, as [swSrc];
    with manual, the registration component registers [/sw.js], the
    file written to [public/sw.js]. *)
Theorem companion_points_at_worker (r : GenerationRequest) (w : World) :
  let base := output_base r w in
  match req_approach r with
  | Serwist =>
      fs (final_world (generate r w)) !! os.path.join base [lit "next.config.ts"]
      = Some serwist_config_content
      ∧ str_contains (lit "swSrc: ~" ++ str_join char_slash [lit "app"; lit "sw.ts"]
                        ++ lit "~,") serwist_config_content = true
      ∧ is_Some (fs (final_world (generate r w))
                   !! os.path.join base [lit "app"; lit "sw.ts"])
  | Manual =>
      fs (final_world (generate r w))
        !! os.path.join base
             [lit "app"; lit "components"; lit "ServiceWorkerRegistration.tsx"]
      = Some sw_registration_content
      ∧ str_contains (lit "navigator.serviceWorker.register(~/"
                        ++ lit "sw.js" ++ lit "~)") sw_registration_content = true
      ∧ is_Some (fs (final_world (generate r w))
                   !! os.path.join base [lit "public"; lit "sw.js"])
  end.
Proof.
  intros base. subst base.
  pose proof (worker_script_stored r w) as Hw.
  destruct (req_approach r) eqn:Ea; (split; [|split]).
  - apply generate_stores. unfold template_outputs. rewrite Ea. cbn [app].
    do 2 apply list_elem_of_further. apply list_elem_of_here.
  - vm_compute. reflexivity.
  - cbn [worker_script_path] in Hw. by rewrite Hw.
  - apply generate_stores. unfold template_outputs. rewrite Ea. cbn [app].
    do 2 apply list_elem_of_further. apply list_elem_of_here.
  - vm_compute. reflexivity.
  - cbn [worker_script_path] in Hw. by rewrite Hw.
Qed.

(** X13: with [--push] the worker script is not dedented.  The handler
    text is dedented before it is interpolated, so its lines start at
    the left edge and leave [textwrap.dedent] no common margin: the
    script on disk starts with the eight spaces of the source exactly
    when [push] is set, for either approach. *)
Theorem push_keeps_source_margin (r : GenerationRequest) (w : World) :
  ∃ c : str,
    fs (final_world (generate r w))
      !! worker_script_path (req_approach r) (output_base r w) = Some c
    ∧ str_startswith c (lit "        ") = req_push r
    ∧ str_contains (char_newline :: push_listener) c = req_push r.
Proof.
  exists (worker_script_content (req_approach r) (req_push r)).
  split; [apply worker_script_stored|].
  destruct (req_approach r), (req_push r); vm_compute; auto.
Qed.

Section FinalNewline.

Import textwrap.

Lemma str_split_closing_line (t b : str) :
  single_line b →
  str_split char_newline (t ++ char_newline :: b)
  = str_split char_newline t ++ [b].
Proof.
  intros Hb. rewrite str_split_app.
  assert (str_split char_newline (char_newline :: b) = [[]; b]) as ->.
  { simpl. by rewrite (str_split_single_line b Hb). }
  cbn [hd tl]. rewrite app_nil_r.
  rewrite (app_removelast_last [] (str_split_nonempty char_newline t)) at 3.
  by rewrite <- app_assoc.
Qed.

Lemma dedent_lines_closing_line (ls : list str) (b : str) :
  forallb is_blank_char b = true →
  ∃ ds, length ds = length ls ∧ dedent_lines (ls ++ [b]) = ds ++ [[]].
Proof.
  intros Hb. unfold dedent_lines. rewrite map_app. cbn [map].
  assert (whitespace_only_sub b = []) as -> by (unfold whitespace_only_sub; by rewrite Hb).
  destruct (dedent_margin _) as [[|c m]|].
  - exists (map whitespace_only_sub ls). by rewrite length_map.
  - exists (map (remove_margin (c :: m)) (map whitespace_only_sub ls)).
    rewrite !length_map. split; [done|]. by rewrite map_app.
  - exists (map whitespace_only_sub ls). by rewrite length_map.
Qed.

Lemma str_join_closing_line (ds : list str) :
  ds ≠ [] →
  str_endswith_char (str_join char_newline (ds ++ [[]])) char_newline = true.
Proof.
  destruct ds as [|d ds]; [done|]. intros _.
  rewrite <- app_comm_cons, str_join_cons, map_app, concat_app. cbn [map concat].
  rewrite app_nil_r, !app_assoc.
  unfold str_endswith_char. by rewrite last_snoc.
Qed.

(** A text that closes with a line of spaces, as the triple-quoted
    templates of the script do, ends with a line break once dedented,
    whatever stands before. *)
Lemma dedent_closing_line (t b : str) :
  forallb (N.eqb char_space) b = true →
  str_endswith_char (dedent (t ++ char_newline :: b)) char_newline = true.
Proof.
  intros Hb.
  assert (forallb is_blank_char b = true) as Hblank.
  { rewrite forallb_forall in *. intros c Hc. apply Hb in Hc.
    unfold is_blank_char. apply N.eqb_eq in Hc as <-. reflexivity. }
  assert (single_line b) as Hs.
  { intros Hin. rewrite forallb_forall in Hb.
    apply list_elem_of_In, Hb in Hin. discriminate Hin. }
  unfold dedent. rewrite str_split_closing_line by done.
  destruct (dedent_lines_closing_line (str_split char_newline t) b Hblank)
    as (ds & Hlen & ->).
  apply str_join_closing_line. intros ->.
  by apply (str_split_nonempty char_newline t), nil_length_inv.
Qed.

End FinalNewline.

Lemma manifest_content_final_newline (name : str) :
  str_endswith_char (manifest_content name) char_newline = true.
Proof.
  unfold manifest_content.
  match goal with
  | |- context [textwrap.dedent (?H ++ name ++ ?M ++ take 12 name ++ ?T)] =>
      let T' := eval vm_compute in (removelast (removelast (removelast (removelast (removelast T))))) in
      assert (T = T' ++ char_newline :: lit "    ") as ->
        by (vm_compute; reflexivity)
  end.
  rewrite !app_assoc. apply dedent_closing_line. reflexivity.
Qed.

Lemma template_outputs_final_newline (r : GenerationRequest) :
  Forall (fun o : relative_components * str =>
            str_endswith_char o.2 char_newline = true)
         (template_outputs r).
Proof.
  destruct r as [name a p o out]. unfold template_outputs.
  cbn [req_project_name req_approach req_push req_offline].
  assert (∀ (c : relative_components) (cs : list (relative_components * str)),
            Forall (fun o : relative_components * str =>
                      str_endswith_char o.2 char_newline = true) cs →
            Forall (fun o : relative_components * str =>
                      str_endswith_char o.2 char_newline = true)
                   ((c, manifest_content name) :: cs)) as Hm.
  { intros c cs Hcs. constructor; [apply manifest_content_final_newline|done]. }
  cbn [app]. apply Hm. clear Hm.
  destruct a, p, o; cbn [app];
    repeat (apply Forall_cons; split; [vm_compute; reflexivity|]);
    apply Forall_nil_2.
Qed.

(** X14: every file a run writes ends with a line break, whatever the
    project name and the flags. *)
Theorem files_end_with_newline (r : GenerationRequest) (w : World) :
  Forall (fun f : str * str => str_endswith_char f.2 char_newline = true)
         (files_written (generate r w)).
Proof.
  rewrite generate_files_written. apply Forall_fmap.
  apply template_outputs_final_newline.
Qed.

